(** * Multi-tenant connection lifecycle manager (BotsService)

    A shallow embedding of [src/main.ts] (class [BotsService]) and of the
    parts it shares with the earlier revision [src/bots/bots.service.ts]:
    session pruning, the reconnect handler of [connection.update], the
    message dispatcher with its local fallback, and the outbound send
    operations.

    - JS [Map<string, _>] is a [gmap string _], JS [Set<string>] a
      [gset string];
    - a JS string is the [string] of its UTF-8 bytes; where the code sorts
      or trims, the UTF-16 code units and the white space of ECMAScript are
      read off these bytes;
    - the reconnect counter (a JS number that only ever holds small
      non-negative integers) is an [N];
    - [async] methods run in a state-and-exception monad over the fields of
      the service object, the session directories and a trace of the
      external effects performed, each [await] being sequenced in place;
    - what the outside world answers (provider open, webhook POST, socket
      send, unlink) is read from an environment of oracles indexed by the
      number of effects performed so far. *)

From Stdlib Require Import NArith Lia Ascii.
From stdpp Require Import base gmap sets list strings sorting.

Local Open Scope N_scope.

(** ** Strings *)

(** [String.prototype.startsWith]. *)
Fixpoint startsWith (pre s : string) : bool :=
  match pre, s with
  | EmptyString, _ => true
  | String _ _, EmptyString => false
  | String a pre', String b s' =>
      if Ascii.eqb a b then startsWith pre' s' else false
  end.

(** [archivo.split('.')[0]]: the name up to its first dot, the whole name
    when it has none. *)
Fixpoint split_dot_0 (s : string) : string :=
  match s with
  | EmptyString => EmptyString
  | String c s' =>
      if Ascii.eqb c "."%char then EmptyString else String c (split_dot_0 s')
  end.

(** [String.prototype.slice(1)]. *)
Definition slice_1 (s : string) : string :=
  match s with
  | EmptyString => EmptyString
  | String _ s' => s'
  end.

(** The white space [String.prototype.trim] strips is that of ECMAScript:
    the six ASCII characters (tab, line feed, vertical tab, form feed,
    carriage return, space) and U+00A0, U+1680, U+2000 to U+200A, U+2028,
    U+2029, U+202F, U+205F, U+3000 and U+FEFF.  A string holds the UTF-8
    bytes of the text, so the latter are the two- and three-byte sequences
    recognised here. *)
Definition espacio_2 (b0 b1 : Ascii.ascii) : bool :=
  (Ascii.N_of_ascii b0 =? 194) && (Ascii.N_of_ascii b1 =? 160).

Definition espacio_3 (b0 b1 b2 : Ascii.ascii) : bool :=
  let n0 := Ascii.N_of_ascii b0 in
  let n1 := Ascii.N_of_ascii b1 in
  let n2 := Ascii.N_of_ascii b2 in
  ((n0 =? 225) && (n1 =? 154) && (n2 =? 128))
  || ((n0 =? 226) && (n1 =? 128) &&
      (((128 <=? n2) && (n2 <=? 138)) || (n2 =? 168) || (n2 =? 169) || (n2 =? 175)))
  || ((n0 =? 226) && (n1 =? 129) && (n2 =? 159))
  || ((n0 =? 227) && (n1 =? 128) && (n2 =? 128))
  || ((n0 =? 239) && (n1 =? 187) && (n2 =? 191)).

(** Strip the white space at the head of [s]; [dos] and [tres] recognise
    the sequences of two and of three bytes. *)
Fixpoint recortar (dos : Ascii.ascii → Ascii.ascii → bool)
    (tres : Ascii.ascii → Ascii.ascii → Ascii.ascii → bool) (s : string)
    : string :=
  match s with
  | EmptyString => EmptyString
  | String c s1 =>
      if Ascii.is_space c then recortar dos tres s1
      else
        match s1 with
        | EmptyString => s
        | String c1 s2 =>
            if dos c c1 then recortar dos tres s2
            else
              match s2 with
              | EmptyString => s
              | String c2 s3 =>
                  if tres c c1 c2 then recortar dos tres s3 else s
              end
        end
  end.

(** [String.prototype.trimStart]. *)
Definition trimStart (s : string) : string := recortar espacio_2 espacio_3 s.

(** [String.prototype.trimEnd]: the same on the bytes read backwards. *)
Definition trimEnd (s : string) : string :=
  String.rev
    (recortar (λ b1 b0, espacio_2 b0 b1) (λ b2 b1 b0, espacio_3 b0 b1 b2)
       (String.rev s)).

(** [String.prototype.trim]. *)
Definition trim (s : string) : string := trimEnd (trimStart s).

Definition lower_ascii (c : Ascii.ascii) : Ascii.ascii :=
  let n := Ascii.N_of_ascii c in
  if (65 <=? n) && (n <=? 90) then Ascii.ascii_of_N (n + 32) else c.

(** [String.prototype.toLowerCase], on the ASCII letters.  The code only
    compares the outcome with [ayuda], [help] and [info]; the one character
    outside ASCII that is lowered to an ASCII letter is the Kelvin sign, to
    [k], which is in none of them, so these comparisons come out as in the
    code. *)
Fixpoint toLowerCase (s : string) : string :=
  match s with
  | EmptyString => EmptyString
  | String c s' => String (lower_ascii c) (toLowerCase s')
  end.

(** ** Pruning: which session files stay *)

(** *** The order of [Array.prototype.sort()]

    Without a comparator [sort] compares strings by their UTF-16 code
    units.  A file name comes from the file system as UTF-8 bytes, which
    [readdirSync] decodes; [code_units] is that decoding (the UTF-8 decoder
    of the Encoding standard: an ill-formed sequence gives U+FFFD and the
    offending byte is read again), followed by the split of a code point
    above U+FFFF into its surrogate pair. *)
Fixpoint bytes (s : string) : list N :=
  match s with
  | EmptyString => []
  | String c s' => Ascii.N_of_ascii c :: bytes s'
  end.

(** The code units of one code point. *)
Definition cp_units (cp : N) : list N :=
  if cp <? 65536 then [cp]
  else [55296 + (cp - 65536) / 1024; 56320 + (cp - 65536) mod 1024].

(** The decoder reading a byte when no sequence is under way: what it
    emits, and the bytes still needed, the code point so far and the bounds
    of the next byte. *)
Definition arranque (b : N) : list N * (nat * N * N * N) :=
  if b <=? 127 then ([b], (0%nat, 0, 128, 191))
  else if (194 <=? b) && (b <=? 223) then ([], (1%nat, b - 192, 128, 191))
  else if (224 <=? b) && (b <=? 239) then
    ([], (2%nat, b - 224,
          (if b =? 224 then 160 else 128), (if b =? 237 then 159 else 191)))
  else if (240 <=? b) && (b <=? 244) then
    ([], (3%nat, b - 240,
          (if b =? 240 then 144 else 128), (if b =? 244 then 143 else 191)))
  else ([65533], (0%nat, 0, 128, 191)).

Fixpoint utf8_decode (needed : nat) (cp lower upper : N) (s : list N) : list N :=
  match s with
  | [] => match needed with O => [] | S _ => [65533] end
  | b :: s' =>
      match needed with
      | O =>
          let '(out, (n, c, lo, up)) := arranque b in
          out ++ utf8_decode n c lo up s'
      | S n' =>
          if (lower <=? b) && (b <=? upper) then
            let c := cp * 64 + (b - 128) in
            match n' with
            | O => cp_units c ++ utf8_decode 0 0 128 191 s'
            | S _ => utf8_decode n' c 128 191 s'
            end
          else
            let '(out, (n, c, lo, up)) := arranque b in
            65533 :: out ++ utf8_decode n c lo up s'
      end
  end.

Definition code_units (s : string) : list N := utf8_decode 0 0 128 191 (bytes s).

(** Lexicographic comparison of two lists of code units. *)
Fixpoint lex (l k : list N) : comparison :=
  match l, k with
  | [], [] => Eq
  | [], _ :: _ => Lt
  | _ :: _, [] => Gt
  | x :: l', y :: k' =>
      match x ?= y with
      | Eq => lex l' k'
      | c => c
      end
  end.

(** [a] comes before [b], or is [b], in that order.  Two names that decode
    to the same code units (which takes an ill-formed one) are told apart
    by their bytes, so that the order is total on file names. *)
Definition js_leb (a b : string) : bool :=
  match lex (code_units a) (code_units b) with
  | Lt => true
  | Eq => bool_decide (String.le a b)
  | Gt => false
  end.

Definition js_le (a b : string) : Prop := js_leb a b = true.

Global Instance js_le_dec : RelDecision js_le :=
  λ a b, decide (js_leb a b = true).

(** [Array.prototype.sort()] without a comparator; on a total order every
    sorting algorithm gives the same list. *)
Definition sort (l : list string) : list string := merge_sort js_le l.

(** One round of the first [archivos.forEach]: file the name under its chat
    key. *)
Definition agrupar (m : gmap string (list string)) (archivo : string)
    : gmap string (list string) :=
  if startsWith "session-" archivo then
    let chatId := split_dot_0 archivo in
    let m1 := if decide (is_Some (m !! chatId)) then m else <[chatId := []]> m in
    alter (λ sesiones, sesiones ++ [archivo]) chatId m1
  else m.

Definition sesionesPorChat (archivos : list string) : gmap string (list string) :=
  foldl agrupar ∅ archivos.

(** [sesiones.sort().reverse().slice(0, 10)]. *)
Definition recientes (sesiones : list string) : list string :=
  take 10 (reverse (sort sesiones)).

(** The [sesionesPorChat.forEach] loop that fills the set [sesionesActivas].
    The set built does not depend on the order in which the map is
    visited. *)
Definition sesionesActivas (archivos : list string) : gset string :=
  map_fold (λ _ sesiones activas, list_to_set (recientes sesiones) ∪ activas)
           ∅ (sesionesPorChat archivos).

(** The test of the last [archivos.forEach]: is this file unlinked? *)
Definition se_elimina (activas : gset string) (archivo : string) : bool :=
  startsWith "session-" archivo && bool_decide (archivo ∉ activas).

(** ** The service object and its surroundings *)

Record Empresa := {
  id : string;
  nombre : string;
  whatsapp : string;
  sesionPath : string;
}.

(** A socket returned by [makeWASocket]; each one is identified by the
    moment it was made. *)
Definition Sock := nat.

Inductive PostOutcome :=
| PostResponse (status : N)
| PostTimeout
| PostNetworkError.

(** [axios.post] resolves on a 2xx answer (the default [validateStatus])
    and rejects otherwise. *)
Definition post_resolves (o : PostOutcome) : bool :=
  match o with
  | PostResponse status => (200 <=? status) && (status <? 300)
  | _ => false
  end.

(** The body posted to the webhook. *)
Record Data := {
  mensaje : string;
  telefono : string;
  empresaId : string;
  timestamp : N;
}.

(** What the handlers read of an incoming message: [m.key.fromMe],
    [m.key.remoteJid] and [m.message?.conversation]. *)
Record WAMessage := {
  fromMe : bool;
  remoteJid : string;
  conversation : option string;
}.

Inductive Connection := close | open | connecting.

(** What the handler reads of a [connection.update]: [connection],
    [(lastDisconnect?.error as any)?.output?.statusCode] and [qr]. *)
Record Update := {
  connection : option Connection;
  statusCode : option N;
  qr : option string;
}.

(** The object returned by the send operations. *)
Record Respuesta := {
  success : bool;
  message : option string;
  error : option string;
}.

(** The object returned by [obtenerEstadoBot], its time stamp apart. *)
Record Estado := {
  estado_empresaId : string;
  activo : bool;
  intentosReconexion : N;
}.

Inductive Effect :=
| Esperar (ms : N)
| Mkdir (dir : string)
| ProviderOpen (dir : string)
| SockEnd (s : Sock)
| AxiosPost (url : string) (data : Data)
| SendMessage (s : Sock) (to text : string)
| Unlink (dir archivo : string)
| QrGenerate (qr : string).

Inductive Error :=
| ErrorMsg (message : string)
| TypeError
| ProviderError
| AxiosError (o : PostOutcome)
| SendError
| FsError.

Definition error_message (e : Error) : string :=
  match e with
  | ErrorMsg m => m
  | TypeError => "TypeError"
  | ProviderError => "provider error"
  | AxiosError _ => "axios error"
  | SendError => "send error"
  | FsError => "fs error"
  end.

(** The answers of the outside world. [tick] is the number of effects the
    service has performed so far. *)
Record Env := {
  empresasData : list Empresa;
  N8N_WEBHOOK_URL : string;
  provider_ok : nat → bool;
  post_outcome : nat → PostOutcome;
  date_now : nat → N;
  send_ok : nat → bool;
  unlink_ok : string → string → bool;
}.

(** The fields of [BotsService], the [sessions] directory ([None] when it
    does not exist; otherwise one listing per tenant directory) and the
    effects performed, oldest first. *)
Record World := {
  bots : gmap string Sock;
  connectionAttempts : gmap string N;
  sessions : option (gmap string (list string));
  trace : list Effect;
}.

Definition with_bots (f : gmap string Sock → gmap string Sock) (w : World) : World :=
  {| bots := f (bots w); connectionAttempts := connectionAttempts w;
     sessions := sessions w; trace := trace w |}.

Definition with_attempts (f : gmap string N → gmap string N) (w : World) : World :=
  {| bots := bots w; connectionAttempts := f (connectionAttempts w);
     sessions := sessions w; trace := trace w |}.

Definition with_sessions
    (f : option (gmap string (list string)) → option (gmap string (list string)))
    (w : World) : World :=
  {| bots := bots w; connectionAttempts := connectionAttempts w;
     sessions := f (sessions w); trace := trace w |}.

Definition emit (e : Effect) (w : World) : World :=
  {| bots := bots w; connectionAttempts := connectionAttempts w;
     sessions := sessions w; trace := trace w ++ [e] |}.

Definition tick (w : World) : nat := length (trace w).

(** ** The monad of [async] methods *)

Inductive Outcome (A : Type) :=
| Ok (a : A)
| Throw (e : Error)
| OutOfFuel.
Arguments Ok {A} a.
Arguments Throw {A} e.
Arguments OutOfFuel {A}.

Definition M (A : Type) : Type := World → Outcome A * World.

Definition ret {A} (a : A) : M A := λ w, (Ok a, w).

Definition bind {A B} (m : M A) (k : A → M B) : M B :=
  λ w, match m w with
       | (Ok a, w') => k a w'
       | (Throw e, w') => (Throw e, w')
       | (OutOfFuel, w') => (OutOfFuel, w')
       end.

Definition throw {A} (e : Error) : M A := λ w, (Throw e, w).

Definition out_of_fuel {A} : M A := λ w, (OutOfFuel, w).

(** [try { body } catch (error) { handler(error) }]. *)
Definition try_catch {A} (body : M A) (handler : Error → M A) : M A :=
  λ w, match body w with
       | (Throw e, w') => handler e w'
       | r => r
       end.

Definition gets {A} (f : World → A) : M A := λ w, (Ok (f w), w).

Definition modify (f : World → World) : M unit := λ w, (Ok tt, f w).

Declare Scope m_scope.
Delimit Scope m_scope with M.
Notation "'let*' x ':=' m 'in' k" := (bind m (λ x, k))
  (at level 10, x name, m at level 100, k at level 200) : m_scope.
Notation "m >> k" := (bind m (λ _, k))
  (at level 100, right associativity) : m_scope.
Local Open Scope m_scope.

(** [list.forEach(f)] and [for (const x of list)]. *)
Fixpoint forEach {A} (f : A → M unit) (l : list A) : M unit :=
  match l with
  | [] => ret tt
  | x :: l' => f x >> forEach f l'
  end.

Definition when (b : bool) (m : M unit) : M unit := if b then m else ret tt.

(** JS truthiness of a possibly undefined string. *)
Definition truthy (s : option string) : bool :=
  match s with
  | Some (String _ _) => true
  | _ => false
  end.

Definition MAX_RECONNECT_ATTEMPTS : N := 5.
Definition RECONNECT_INTERVAL : N := 5000.

(** [DisconnectReason.loggedOut] of the provider library. *)
Definition DisconnectReason_loggedOut : N := 401.

(** [connectionAttempts.get(id) || 0]. *)
Definition intentos (w : World) (empresaId : string) : N :=
  default 0 (connectionAttempts w !! empresaId).

Section Service.
Context (env : Env).

(** *** The outside world *)

Definition esperar (ms : N) : M unit := modify (emit (Esperar ms)).

Definition existsSync_sessionsDir : M bool :=
  gets (λ w, bool_decide (is_Some (sessions w))).

Definition existsSync (dir : string) : M bool :=
  gets (λ w, bool_decide (is_Some (sessions w ≫= (.!! dir)))).

Definition readdirSync (dir : string) : M (list string) :=
  λ w, match sessions w ≫= (.!! dir) with
       | Some archivos => (Ok archivos, w)
       | None => (Throw FsError, w)
       end.

(** [fs.unlinkSync]: removes the entry, or throws when there is no such
    entry or the file system refuses. *)
Definition unlinkSync (dir archivo : string) : M unit :=
  λ w, match sessions w with
       | Some dirs =>
           match dirs !! dir with
           | Some archivos =>
               if bool_decide (archivo ∈ archivos) && unlink_ok env dir archivo
               then (Ok tt,
                     emit (Unlink dir archivo)
                       (with_sessions
                          (λ _, Some (<[dir := filter (.≠ archivo) archivos]> dirs)) w))
               else (Throw FsError, w)
           | None => (Throw FsError, w)
           end
       | None => (Throw FsError, w)
       end.

(** [fs.mkdirSync(dir, { recursive: true })], taken to succeed: a directory
    that cannot be made is not modelled.  It is only called for a tenant
    whose directory is missing; what is stated below of a start that
    registers a handle is stated for a tenant whose directory exists. *)
Definition mkdirSync (dir : string) : M unit :=
  modify (λ w, emit (Mkdir dir)
                 (with_sessions (λ s, Some (<[dir := []]> (default ∅ s))) w)).

(** [useMultiFileAuthState], [fetchLatestBaileysVersion] and
    [makeWASocket]: either a new socket or an exception. *)
Definition makeWASocket (dir : string) : M Sock :=
  λ w, let w' := emit (ProviderOpen dir) w in
       if provider_ok env (tick w) then (Ok (tick w), w')
       else (Throw ProviderError, w').

Definition sock_end (s : Sock) : M unit := modify (emit (SockEnd s)).

Definition sendMessage (s : Sock) (to text : string) : M unit :=
  λ w, let w' := emit (SendMessage s to text) w in
       if send_ok env (tick w) then (Ok tt, w') else (Throw SendError, w').

Definition axios_post (url : string) (data : Data) : M unit :=
  λ w, let w' := emit (AxiosPost url data) w in
       let o := post_outcome env (tick w) in
       if post_resolves o then (Ok tt, w') else (Throw (AxiosError o), w').

(** *** [limpiarSesionesAntiguas] *)

Definition obtenerEmpresas : M (list Empresa) := ret (empresasData env).

(** The body of [for (const empresa of empresas)]. *)
Definition limpiarEmpresa (empresa : Empresa) : M unit :=
  let* hay := existsSync (id empresa) in
  when hay
    (let* archivos := readdirSync (id empresa) in
     let activas := sesionesActivas archivos in
     forEach (λ archivo,
                when (se_elimina activas archivo)
                  (unlinkSync (id empresa) archivo))
             archivos).

Definition limpiarSesionesAntiguas : M unit :=
  try_catch
    (let* hay := existsSync_sessionsDir in
     when hay
       (let* empresas := obtenerEmpresas in
        forEach limpiarEmpresa empresas))
    (λ _, ret tt).

(** *** Sending *)

Definition enviarMensaje (sock : Sock) (to text : string) : M unit :=
  try_catch (sendMessage sock to text) (λ _, ret tt).

Definition enviarRespuestaDesdeN8N (empresaId telefono respuesta : string)
    : M Respuesta :=
  try_catch
    (let* sock := gets (λ w, bots w !! empresaId) in
     match sock with
     | None => throw (ErrorMsg ("Bot no encontrado para empresa " +:+ empresaId))
     | Some sock =>
         enviarMensaje sock telefono respuesta >>
         ret {| success := true;
                message := Some "Respuesta enviada correctamente desde N8N";
                error := None |}
     end)
    (λ e, ret {| success := false;
                 message := Some (error_message e);
                 error := None |}).

Definition enviarMensajePorEmpresaId (empresaId to text : string)
    : M Respuesta :=
  try_catch
    (let* sock := gets (λ w, bots w !! empresaId) in
     match sock with
     | None => throw (ErrorMsg "Bot no encontrado")
     | Some sock =>
         enviarMensaje sock to text >>
         ret {| success := true;
                message := Some "Mensaje enviado correctamente";
                error := None |}
     end)
    (λ _, ret {| success := false;
                 message := None;
                 error := Some "Error al enviar el mensaje" |}).

Definition obtenerEstadoBot (empresaId : string) (w : World) : Estado :=
  {| estado_empresaId := empresaId;
     activo := bool_decide (is_Some (bots w !! empresaId));
     intentosReconexion := intentos w empresaId |}.

(** *** The dispatcher and its local fallback *)

Definition respuesta_ayuda : string :=
  "🤖 *Comandos disponibles (Modo local):*
• *!estado [número]* - Consulta el estado de un pedido
• *!ayuda* - Muestra este mensaje
• *!info* - Información de la tienda
• *!horario* - Horarios de atención

*Nota:* N8N no disponible, funcionando en modo local.".

(** [x || y] on a possibly undefined string. *)
Definition o_bien (x : option string) (y : string) : string :=
  match x with
  | Some (String _ _ as s) => s
  | _ => y
  end.

Definition respuesta_info (empresa : option Empresa) : string :=
  "🏪 *" +:+ o_bien (nombre <$> empresa) "Empresa" +:+ "*
📱 WhatsApp: " +:+ o_bien (whatsapp <$> empresa) "No disponible" +:+ "

¡Gracias por contactarnos! 😊".

Definition respuesta_desconocido : string :=
  "❓ Comando no reconocido. Escribe *!ayuda* para ver comandos disponibles.
        
*Nota:* Sistema funcionando en modo local.".

Definition procesarMensajeLocal (empresaId : string) (data : Data) : M unit :=
  let* sock := gets (λ w, bots w !! empresaId) in
  match sock with
  | None => ret tt
  | Some sock =>
      if startsWith "!" (mensaje data) then
        let comando := toLowerCase (trim (slice_1 (mensaje data))) in
        let respuesta :=
          if bool_decide (comando = "ayuda") || bool_decide (comando = "help")
          then respuesta_ayuda
          else if bool_decide (comando = "info")
          then respuesta_info
                 (find (λ e, bool_decide (id e = empresaId)) (empresasData env))
          else respuesta_desconocido in
        enviarMensaje sock (telefono data) respuesta
      else ret tt
  end.

Definition enviarMensajeAN8N (empresaId : string) (data : Data) : M unit :=
  try_catch
    (let webhookUrl := N8N_WEBHOOK_URL env +:+ "/empresa-" +:+ empresaId in
     axios_post webhookUrl data)
    (λ _, procesarMensajeLocal empresaId data).

(** The handler of [messages.upsert]. *)
Definition messages_upsert (empresa : Empresa) (messages : list WAMessage)
    : M unit :=
  match messages with
  | [] => throw TypeError
  | m :: _ =>
      let texto := conversation m in
      let sender := remoteJid m in
      if negb (fromMe m) && truthy texto then
        try_catch
          (let* ahora := gets (λ w, date_now env (tick w)) in
           enviarMensajeAN8N (id empresa)
             {| mensaje := default "" texto;
                telefono := sender;
                empresaId := id empresa;
                timestamp := ahora |})
          (λ _, ret tt)
      else ret tt
  end.

(** *** [iniciarBot] and the handler of [connection.update] *)

(** [fuel] bounds the depth of the retry recursion in the [catch] branch;
    [iniciarBot_total] shows that [6] is always enough. *)
Fixpoint iniciarBot_fuel (fuel : nat) (empresa : Empresa) : M unit :=
  match fuel with
  | O => out_of_fuel
  | S fuel' =>
      let* ya := gets (λ w, bool_decide (is_Some (bots w !! id empresa))) in
      if ya then ret tt
      else
        try_catch
          (let* hay := existsSync (id empresa) in
           when (negb hay) (mkdirSync (id empresa)) >>
           let* sock := makeWASocket (id empresa) in
           modify (with_bots <[id empresa := sock]>))
          (λ _,
             let* w := gets (λ w, w) in
             let attempts := intentos w (id empresa) + 1 in
             if attempts <=? MAX_RECONNECT_ATTEMPTS then
               modify (with_attempts <[id empresa := attempts]>) >>
               esperar RECONNECT_INTERVAL >>
               iniciarBot_fuel fuel' empresa
             else ret tt)
  end.

Definition iniciarBot (empresa : Empresa) : M unit :=
  iniciarBot_fuel 6 empresa.

(** The delay before a reconnect:
    [Math.min(1000 * Math.pow(2, attempts), 30000)]. *)
Definition backoff (attempts : N) : N := N.min (1000 * 2 ^ attempts) 30000.

(** What runs once the wait is over: drop the old socket, start again. *)
Definition reconectar (empresa : Empresa) : M unit :=
  let* ya := gets (λ w, bool_decide (is_Some (bots w !! id empresa))) in
  when ya
    (let* oldSock := gets (λ w, bots w !! id empresa) in
     match oldSock with
     | Some oldSock =>
         sock_end oldSock >> modify (with_bots (delete (id empresa)))
     | None => ret tt
     end) >>
  iniciarBot empresa.

Definition connection_update (empresa : Empresa) (update : Update) : M unit :=
  when (truthy (qr update))
    (modify (emit (QrGenerate (default "" (qr update)))) >>
     modify (with_attempts <[id empresa := 0]>)) >>
  match connection update with
  | Some close =>
      let* w := gets (λ w, w) in
      let shouldReconnect :=
        negb (bool_decide (statusCode update = Some DisconnectReason_loggedOut)) in
      let attempts := intentos w (id empresa) + 1 in
      if shouldReconnect && (attempts <=? MAX_RECONNECT_ATTEMPTS) then
        modify (with_attempts <[id empresa := attempts]>) >>
        let delay := backoff attempts in
        try_catch
          (esperar delay >> reconectar empresa)
          (λ _, ret tt)
      else if MAX_RECONNECT_ATTEMPTS <? attempts then
        modify (with_bots (delete (id empresa))) >>
        modify (with_attempts (delete (id empresa)))
      else ret tt
  | Some open => modify (with_attempts (delete (id empresa)))
  | _ => ret tt
  end.
End Service.

(** ** Vocabulary of the statements *)

(** The session files of one chat key, in directory order. *)
Definition grupo (chatId : string) (archivos : list string) : list string :=
  filter (λ a, startsWith "session-" a = true ∧ split_dot_0 a = chatId) archivos.

(** How many names of [l] come after [a] in the order of [sort]. *)
Definition mayores (a : string) (l : list string) : nat :=
  length (filter (λ b, js_le a b ∧ a ≠ b) l).

(** The listing a directory is left with when every unlink succeeds. *)
Definition podar (archivos : list string) : list string :=
  filter (λ a, se_elimina (sesionesActivas archivos) a = false) archivos.

(** The listing of a tenant directory, if it exists. *)
Definition listado (w : World) (dir : string) : option (list string) :=
  sessions w ≫= (.!! dir).

(** The scenario of fifteen session files of chat key [c1], and the ten
    newest of them. *)
Definition quince : list string :=
  ["session-c1.01"; "session-c1.02"; "session-c1.03"; "session-c1.04";
   "session-c1.05"; "session-c1.06"; "session-c1.07"; "session-c1.08";
   "session-c1.09"; "session-c1.10"; "session-c1.11"; "session-c1.12";
   "session-c1.13"; "session-c1.14"; "session-c1.15"].


(** A tenant, an environment in which the provider and the file system
    always succeed while the webhook and the socket always fail, and a
    service that has not started anything yet. *)
Definition empresa_t1 : Empresa :=
  {| id := "t1"; nombre := "Tienda Uno"; whatsapp := "+51999000111";
     sesionPath := "sessions/t1" |}.

Definition entorno_t1 : Env :=
  {| empresasData := [empresa_t1];
     N8N_WEBHOOK_URL := "http://n8n-server:5678/webhook";
     provider_ok := λ _, true;
     post_outcome := λ _, PostTimeout;
     date_now := λ _, 0;
     send_ok := λ _, false;
     unlink_ok := λ _ _, true |}.

Definition mundo_t1 : World :=
  {| bots := ∅;
     connectionAttempts := ∅;
     sessions := Some {[ "t1" := "creds.json" :: quince ]};
     trace := [] |}.

(** The same service once the socket of [t1] has been made and has
    opened. *)
Definition mundo_conectado : World :=
  {| bots := {[ "t1" := 0%nat ]};
     connectionAttempts := ∅;
     sessions := Some {[ "t1" := ["creds.json"] ]};
     trace := [ProviderOpen "t1"] |}.

(** A close that is not a logout (428, connection closed), a logout close
    and an open. *)
Definition cierre_428 : Update :=
  {| connection := Some close; statusCode := Some 428; qr := None |}.

Definition cierre_logout : Update :=
  {| connection := Some close; statusCode := Some DisconnectReason_loggedOut;
     qr := None |}.

Definition apertura : Update :=
  {| connection := Some open; statusCode := None; qr := None |}.

(** The effects [m] performs when run from [w]: what it appends to the
    trace. *)
Definition efectos {A} (m : M A) (w : World) : list Effect :=
  drop (length (trace w)) (trace (m w).2).

(** The waits among some effects, and the provider opens among them. *)
Definition esperas (l : list Effect) : list N :=
  omap (λ ef, match ef with Esperar ms => Some ms | _ => None end) l.

Definition aperturas (l : list Effect) : list string :=
  omap (λ ef, match ef with ProviderOpen dir => Some dir | _ => None end) l.

(** The world after the handler of [connection.update] has processed the
    updates [us] one after the other. *)
Definition procesar (env : Env) (empresa : Empresa) (us : list Update)
    (w : World) : World :=
  foldl (λ w u, (connection_update env empresa u w).2) w us.

(** A close event without pairing code whose status code is not the
    logged-out one. *)
Definition cierre_transitorio (u : Update) : Prop :=
  connection u = Some close ∧
  statusCode u ≠ Some DisconnectReason_loggedOut ∧
  truthy (qr u) = false.

(** The trace of [w] continues that of [w0]. *)
Definition extiende (w0 w : World) : Prop := trace w0 `prefix_of` trace w.

(** The world once the [if (qr)] part of the handler has run. *)
Definition tras_qr (empresa : Empresa) (u : Update) (w : World) : World :=
  if truthy (qr u)
  then with_attempts <[id empresa := 0]> (emit (QrGenerate (default "" (qr u))) w)
  else w.

(** The service of [mundo_conectado] after two closes that were not
    logouts: the counter holds 2. *)
Definition mundo_reintentando : World :=
  procesar entorno_t1 empresa_t1 [cierre_428; cierre_428] mundo_conectado.

(** An incoming command from a customer. *)
Definition mensaje_ayuda : WAMessage :=
  {| fromMe := false; remoteJid := "51987654321@s.whatsapp.net";
     conversation := Some "!ayuda" |}.

(** The body the dispatcher posts for the first message of an upsert. *)
Definition datos_de (env : Env) (empresa : Empresa) (m : WAMessage) (w : World)
    : Data :=
  {| mensaje := default "" (conversation m);
     telefono := remoteJid m;
     empresaId := id empresa;
     timestamp := date_now env (tick w) |}.

Definition webhook_de (env : Env) (empresa : Empresa) : string :=
  N8N_WEBHOOK_URL env +:+ "/empresa-" +:+ id empresa.

(** [m] never leaves the set of worlds [P]. *)
Definition conserva {A} (P : World → Prop) (m : M A) : Prop :=
  ∀ w, P w → P (m w).2.

(** ** The rest of the service *)

(** The object returned by [iniciarBotPorEmpresaId]: either a message or an
    error. *)
Record Inicio := {
  inicio_message : option string;
  inicio_error : option string;
}.

Definition iniciarBotPorEmpresaId (env : Env) (empresaId : string) : M Inicio :=
  try_catch
    (let* empresas := obtenerEmpresas env in
     match find (λ e, bool_decide (id e = empresaId)) empresas with
     | None =>
         ret {| inicio_message := None;
                inicio_error := Some "Empresa no encontrada" |}
     | Some empresa =>
         iniciarBot env empresa >>
         ret {| inicio_message := Some ("Bot iniciado para " +:+ nombre empresa);
                inicio_error := None |}
     end)
    (λ _, ret {| inicio_message := None;
                 inicio_error := Some "Error al iniciar el bot" |}).

Definition onModuleInit (env : Env) : M unit :=
  try_catch
    (limpiarSesionesAntiguas env >>
     let* empresas := obtenerEmpresas env in
     match empresas with
     | [] => ret tt
     | _ :: _ => forEach (iniciarBot env) empresas
     end)
    (λ _, ret tt).

(** ** The controller *)

Module BotsController.

Inductive HttpStatus := BAD_REQUEST | INTERNAL_SERVER_ERROR.

Record HttpException := {
  reason : string;
  status : HttpStatus;
}.

(** The body of [POST webhook/respuesta]; a field may be missing. *)
Record CuerpoRespuesta := {
  cr_empresaId : option string;
  cr_telefono : option string;
  cr_respuesta : option string;
}.

(** The body of [POST :empresaId/send]. *)
Record CuerpoEnvio := {
  ce_telefono : option string;
  ce_mensaje : option string;
}.

(** The answer of the two endpoints that send ([success] is always [true]
    in it, and the time stamp is left out). *)
Record Entregado := {
  en_message : string;
  en_empresaId : string;
  en_telefono : string;
  en_mensaje : option string;
}.

(** An endpoint either returns its answer ([inr]) or throws an
    [HttpException] ([inl]); any other exception met on the way is turned
    into a 500 by the [catch] of the endpoint. *)
Definition recibirRespuestaDeN8N (env : Env) (body : CuerpoRespuesta)
    : M (HttpException + Entregado) :=
  try_catch
    (if negb (truthy (cr_empresaId body)) || negb (truthy (cr_telefono body))
        || negb (truthy (cr_respuesta body))
     then ret (inl {| reason := "Datos requeridos: empresaId, telefono, respuesta";
                      status := BAD_REQUEST |})
     else
       let* resultado :=
         enviarRespuestaDesdeN8N env (default "" (cr_empresaId body))
           (default "" (cr_telefono body)) (default "" (cr_respuesta body)) in
       if negb (success resultado)
       then ret (inl {| reason := default "" (message resultado);
                        status := INTERNAL_SERVER_ERROR |})
       else ret (inr {| en_message := "Respuesta enviada correctamente";
                        en_empresaId := default "" (cr_empresaId body);
                        en_telefono := default "" (cr_telefono body);
                        en_mensaje := None |}))
    (λ _, ret (inl {| reason := "Error interno del servidor";
                      status := INTERNAL_SERVER_ERROR |})).

Definition enviarMensaje (env : Env) (empresaId : string) (body : CuerpoEnvio)
    : M (HttpException + Entregado) :=
  try_catch
    (if negb (truthy (ce_telefono body)) || negb (truthy (ce_mensaje body))
     then ret (inl {| reason := "Datos requeridos: telefono, mensaje";
                      status := BAD_REQUEST |})
     else
       let* resultado :=
         enviarMensajePorEmpresaId env empresaId (default "" (ce_telefono body))
           (default "" (ce_mensaje body)) in
       if negb (success resultado)
       then ret (inl {| reason := o_bien (error resultado) "Error al enviar mensaje";
                        status := INTERNAL_SERVER_ERROR |})
       else ret (inr {| en_message := "Mensaje enviado correctamente";
                        en_empresaId := empresaId;
                        en_telefono := default "" (ce_telefono body);
                        en_mensaje := Some (default "" (ce_mensaje body)) |}))
    (λ _, ret (inl {| reason := "Error interno del servidor";
                      status := INTERNAL_SERVER_ERROR |})).

(** The answer of [GET status/all], its time stamps apart. *)
Record EstadoTodos := {
  data : list Estado;
  total : nat;
  activos : nat;
  inactivos : nat;
}.

Definition obtenerEstadoTodosBots (env : Env) (w : World) : EstadoTodos :=
  let estados := (λ empresa, obtenerEstadoBot (id empresa) w) <$> empresasData env in
  {| data := estados;
     total := length estados;
     activos := length (filter (λ e, activo e = true) estados);
     inactivos := length (filter (λ e, negb (activo e) = true) estados) |}.

End BotsController.

(** ** The message handler of the earlier revision *)

Module Rev1.

(** The part of a string before its first space. *)
Fixpoint hasta_espacio (s : string) : string :=
  match s with
  | EmptyString => EmptyString
  | String c s' =>
      if Ascii.eqb c " "%char then EmptyString else String c (hasta_espacio s')
  end.

(** [comando.split(' ')[1]]: undefined when the string has no space. *)
Fixpoint split_espacio_1 (s : string) : option string :=
  match s with
  | EmptyString => None
  | String c s' =>
      if Ascii.eqb c " "%char then Some (hasta_espacio s') else split_espacio_1 s'
  end.

(** A possibly undefined string inside a template literal. *)
Definition plantilla (x : option string) : string := default "undefined" x.

Definition mensajeAyuda : string :=
  "🤖 *Comandos disponibles:*
• *!estado [número]* - Consulta el estado de un pedido
• *!ayuda* - Muestra este mensaje de ayuda
• *!info* - Muestra información de la tienda

Para más información, contacta a soporte.".

Definition mensajeInfo (empresa : Empresa) : string :=
  "🏪 *" +:+ nombre empresa +:+ "*
📱 WhatsApp: " +:+ whatsapp empresa +:+ "
⏰ Horario de atención: Lunes a Sábado de 9:00 a 18:00

¡Gracias por contactarnos! 😊".

(** [axios.get] of the order followed by [const { estado } =
    response.data]: [pedidos] tells, for the moment and the URL of the
    request, whether this throws ([None]: the request rejects, or its
    answer has no data to read [estado] from) or what [estado] is
    (possibly undefined), as the template literal prints it. The request
    reads and changes nothing of the service. *)
Definition axios_get (pedidos : nat → string → option (option string))
    (url : string) : M (option string) :=
  λ w, match pedidos (tick w) url with
       | Some estado => (Ok estado, w)
       | None => (Throw (AxiosError PostNetworkError), w)
       end.

(** The handler of [messages.upsert] that [iniciarBot] attaches to the
    socket [sock] it has just made. *)
Definition messages_upsert (env : Env)
    (pedidos : nat → string → option (option string))
    (empresa : Empresa) (sock : Sock) (messages : list WAMessage) : M unit :=
  match messages with
  | [] => throw TypeError
  | m :: _ =>
      let texto := conversation m in
      let sender := remoteJid m in
      if negb (fromMe m) && truthy texto && startsWith "/" (default "" texto) then
        let comando := trim (slice_1 (default "" texto)) in
        if startsWith "estado" comando then
          let pedidoId := plantilla (split_espacio_1 comando) in
          try_catch
            (let* estado :=
               axios_get pedidos
                 ("http://localhost:3000/empresas/" +:+ id empresa +:+
                  "/pedidos/" +:+ pedidoId) in
             enviarMensaje env sock sender
               ("📦 Estado del pedido " +:+ pedidoId +:+ ": " +:+ plantilla estado))
            (λ _, enviarMensaje env sock sender
                    ("❌ No encontré el pedido " +:+ pedidoId))
        else if bool_decide (toLowerCase comando = "ayuda")
                || bool_decide (toLowerCase comando = "help") then
          enviarMensaje env sock sender mensajeAyuda
        else if bool_decide (toLowerCase comando = "info") then
          enviarMensaje env sock sender (mensajeInfo empresa)
        else
          enviarMensaje env sock sender
            "Comando no reconocido. Escribe *!ayuda* para ver los comandos disponibles."
      else ret tt
  end.

End Rev1.

(** [m] always comes to an end. *)
Definition termina {A} (m : M A) : Prop := ∀ w, (m w).1 ≠ OutOfFuel.

(** An environment like [entorno_t1] in which the provider never opens. *)
Definition entorno_caido : Env :=
  {| empresasData := [empresa_t1];
     N8N_WEBHOOK_URL := "http://n8n-server:5678/webhook";
     provider_ok := λ _, false;
     post_outcome := λ _, PostResponse 200;
     date_now := λ _, 0;
     send_ok := λ _, true;
     unlink_ok := λ _ _, true |}.

(** An environment like [entorno_t1] in which no file can be unlinked. *)
Definition entorno_solo_lectura : Env :=
  {| empresasData := [empresa_t1];
     N8N_WEBHOOK_URL := "http://n8n-server:5678/webhook";
     provider_ok := λ _, true;
     post_outcome := λ _, PostTimeout;
     date_now := λ _, 0;
     send_ok := λ _, false;
     unlink_ok := λ _ _, false |}.

(** An environment like [entorno_t1] whose provider fails to open once: at
    the fourth effect, which from [mundo_conectado] is the open of the
    first reconnect. *)
Definition entorno_un_fallo : Env :=
  {| empresasData := [empresa_t1];
     N8N_WEBHOOK_URL := "http://n8n-server:5678/webhook";
     provider_ok := λ t, negb (t =? 3)%nat;
     post_outcome := λ _, PostTimeout;
     date_now := λ _, 0;
     send_ok := λ _, false;
     unlink_ok := λ _ _, true |}.

(** A second tenant, an environment that lists both, and a service that has
    not started anything yet in which each has its session directory. *)
Definition empresa_t2 : Empresa :=
  {| id := "t2"; nombre := "Tienda Dos"; whatsapp := "+51999000222";
     sesionPath := "sessions/t2" |}.

Definition entorno_dos : Env :=
  {| empresasData := [empresa_t1; empresa_t2];
     N8N_WEBHOOK_URL := "http://n8n-server:5678/webhook";
     provider_ok := λ _, true;
     post_outcome := λ _, PostTimeout;
     date_now := λ _, 0;
     send_ok := λ _, false;
     unlink_ok := λ _ _, true |}.

Definition mundo_dos : World :=
  {| bots := ∅;
     connectionAttempts := ∅;
     sessions := Some {[ "t1" := "creds.json" :: quince; "t2" := ["creds.json"] ]};
     trace := [] |}.

(** A close that is not a logout and carries a pairing code. *)
Definition cierre_con_qr : Update :=
  {| connection := Some close; statusCode := Some 428; qr := Some "2@abc" |}.


(** * Proofs *)

(** ** Grouping and the retained set *)

Lemma sesionesPorChat_snoc archivos a :
  sesionesPorChat (archivos ++ [a]) = agrupar (sesionesPorChat archivos) a.
Proof. unfold sesionesPorChat. by rewrite foldl_app. Qed.

Lemma grupo_snoc k archivos a :
  grupo k (archivos ++ [a]) =
  grupo k archivos ++
    (if decide (startsWith "session-" a = true ∧ split_dot_0 a = k) then [a] else []).
Proof.
  unfold grupo. by rewrite filter_app.
Qed.

(** The map built by the first loop holds, under each key, the session
    files of that key, and has no empty entry. *)
Lemma sesionesPorChat_lookup archivos k :
  sesionesPorChat archivos !! k =
  match grupo k archivos with [] => None | g => Some g end.
Proof.
  induction archivos as [|a archivos IH] using rev_ind.
  { done. }
  rewrite sesionesPorChat_snoc, grupo_snoc. unfold agrupar.
  destruct (startsWith "session-" a) eqn:Hs; last first.
  { rewrite IH. destruct (decide _) as [[? _]|_]; [done|].
    by rewrite app_nil_r. }
  destruct (decide (split_dot_0 a = k)) as [->|Hne].
  - rewrite lookup_alter_eq.
    destruct (decide (true = true ∧ _)) as [_|[]]; [|done].
    destruct (decide (is_Some _)) as [[g Hg]|Hnone].
    + rewrite Hg. simpl. rewrite IH in Hg.
      destruct (grupo _ archivos) eqn:E; simplify_eq. by destruct (_ ++ _) eqn:E'.
    + rewrite lookup_insert_eq. simpl.
      rewrite IH in Hnone. destruct (grupo _ archivos); [done|].
      exfalso. apply Hnone. eauto.
  - rewrite lookup_alter_ne by done.
    destruct (decide (true = true ∧ _)) as [[_ ?]|_]; [done|].
    rewrite app_nil_r.
    destruct (decide (is_Some _)); [done|]. by rewrite lookup_insert_ne.
Qed.

Lemma elem_of_grupo k archivos a :
  a ∈ grupo k archivos ↔
  a ∈ archivos ∧ startsWith "session-" a = true ∧ split_dot_0 a = k.
Proof. unfold grupo. rewrite list_elem_of_filter. tauto. Qed.

Lemma recientes_subseteq g a : a ∈ recientes g → a ∈ g.
Proof.
  unfold recientes, sort. intros H%subseteq_take.
  rewrite elem_of_reverse in H. by rewrite merge_sort_Permutation in H.
Qed.

Lemma elem_of_sesionesActivas_map (m : gmap string (list string)) a :
  a ∈ map_fold (λ _ sesiones (activas : gset string),
                  list_to_set (recientes sesiones) ∪ activas) ∅ m ↔
  ∃ k g, m !! k = Some g ∧ a ∈ recientes g.
Proof.
  apply (map_fold_weak_ind
           (λ (r : gset string) (m : gmap string (list string)),
              a ∈ r ↔ ∃ k g, m !! k = Some g ∧ a ∈ recientes g)).
  - split; [set_solver|]. intros (k & g & Hk & _). by rewrite lookup_empty in Hk.
  - clear m. intros i x m r Hi IH.
    rewrite elem_of_union, elem_of_list_to_set, IH. split.
    + intros [Hx|(k & g & Hk & Hg)].
      * exists i, x. by rewrite lookup_insert_eq.
      * exists k, g. split; [|done].
        rewrite lookup_insert_ne; [done|]. intros ->. congruence.
    + intros (k & g & Hk & Hg).
      destruct (decide (i = k)) as [->|Hne].
      * rewrite lookup_insert_eq in Hk. simplify_eq. by left.
      * rewrite lookup_insert_ne in Hk by done. right. eauto.
Qed.

(** A name is in [sesionesActivas] exactly when it is among the first ten
    of its own group, sorted in descending order. *)
Lemma elem_of_sesionesActivas archivos a :
  a ∈ sesionesActivas archivos ↔ a ∈ recientes (grupo (split_dot_0 a) archivos).
Proof.
  unfold sesionesActivas. rewrite elem_of_sesionesActivas_map. split.
  - intros (k & g & Hk & Hg). rewrite sesionesPorChat_lookup in Hk.
    assert (g = grupo k archivos) as -> by (destruct (grupo k archivos); congruence).
    pose proof (recientes_subseteq _ _ Hg) as Hin.
    apply elem_of_grupo in Hin as (_ & _ & <-). done.
  - intros Hg. exists (split_dot_0 a), (grupo (split_dot_0 a) archivos).
    split; [|done]. rewrite sesionesPorChat_lookup.
    destruct (grupo _ archivos) eqn:E; [|done].
    apply recientes_subseteq in Hg. by apply not_elem_of_nil in Hg.
Qed.

(** ** The ten greatest names of a group *)

(** The order of [sort] is a total order on names. *)
Lemma lex_refl l : lex l l = Eq.
Proof. induction l as [|x l IH]; [done|]. simpl. by rewrite N.compare_refl. Qed.

Lemma lex_eq l k : lex l k = Eq → l = k.
Proof.
  revert k. induction l as [|x l IH]; intros [|y k]; simpl; try done.
  destruct (x ?= y) eqn:E; try done.
  apply N.compare_eq in E as ->. by intros ->%IH.
Qed.

Lemma lex_antisym l k : lex k l = CompOpp (lex l k).
Proof.
  revert k. induction l as [|x l IH]; intros [|y k]; simpl; try done.
  rewrite (N.compare_antisym x y). destruct (x ?= y); simpl; auto.
Qed.

Lemma lex_trans l k m : lex l k = Lt → lex k m = Lt → lex l m = Lt.
Proof.
  revert k m. induction l as [|x l IH]; intros [|y k] [|z m]; simpl; try done.
  destruct (x ?= y) eqn:Exy; try done; destruct (y ?= z) eqn:Eyz; try done.
  - apply N.compare_eq in Exy as ->, Eyz as ->. rewrite N.compare_refl. apply IH.
  - apply N.compare_eq in Exy as ->. by rewrite Eyz.
  - apply N.compare_eq in Eyz as <-. by rewrite Exy.
  - intros _ _. rewrite N.compare_lt_iff in Exy, Eyz.
    assert (x < z) as ->%N.compare_lt_iff by lia. done.
Qed.

Global Instance js_le_po : PartialOrder js_le.
Proof.
  unfold js_le, js_leb. repeat split.
  - intros a. rewrite lex_refl. by apply bool_decide_eq_true.
  - intros a b c Hab Hbc.
    destruct (lex (code_units a) (code_units b)) eqn:Eab; [| |done];
      destruct (lex (code_units b) (code_units c)) eqn:Ebc; try done.
    + apply lex_eq in Eab, Ebc. rewrite Eab, Ebc, lex_refl.
      apply bool_decide_eq_true in Hab, Hbc. apply bool_decide_eq_true.
      by etrans.
    + apply lex_eq in Eab. by rewrite Eab, Ebc.
    + apply lex_eq in Ebc. by rewrite <-Ebc, Eab.
    + by rewrite (lex_trans _ _ _ Eab Ebc).
  - intros a b Hab Hba. rewrite (lex_antisym (code_units a)) in Hba.
    destruct (lex (code_units a) (code_units b)); try done. simpl in Hba.
    apply bool_decide_eq_true in Hab, Hba. by apply (anti_symm String.le).
Qed.

Global Instance js_le_total : Total js_le.
Proof.
  intros a b. unfold js_le, js_leb. rewrite (lex_antisym (code_units a) (code_units b)).
  destruct (lex (code_units a) (code_units b)); simpl; auto.
  rewrite !bool_decide_eq_true. apply (total String.le).
Qed.

(** On ASCII names the order is that of the bytes; beyond them it is not:
    a character outside the basic plane is written with surrogates, which
    come before U+FF5E. *)
Lemma sort_ejemplos :
  sort ["b"; "a"; "B"; "10"; "9"] = ["10"; "9"; "B"; "a"; "b"] ∧
  code_units "😀" = [55357; 56832] ∧ code_units "～" = [65374] ∧
  sort ["～"; "😀"] = ["😀"; "～"] ∧
  merge_sort String.le ["～"; "😀"] = ["～"; "😀"].
Proof. by vm_compute. Qed.

(** [trim] strips the white space of ECMAScript on both sides and nothing
    else. *)
Lemma trim_ejemplos :
  trim "  ayuda " = "ayuda" ∧
  trim (String (Ascii.ascii_of_N 9) "5" +:+
        String (Ascii.ascii_of_N 194) (String (Ascii.ascii_of_N 160) "")) = "5" ∧
  trim (String (Ascii.ascii_of_N 226) (String (Ascii.ascii_of_N 128)
          (String (Ascii.ascii_of_N 137) "estado 7")) +:+
        String (Ascii.ascii_of_N 227) (String (Ascii.ascii_of_N 128)
          (String (Ascii.ascii_of_N 128) ""))) = "estado 7" ∧
  trim "a b" = "a b" ∧
  trim (String (Ascii.ascii_of_N 194) (String (Ascii.ascii_of_N 161) "")) =
    String (Ascii.ascii_of_N 194) (String (Ascii.ascii_of_N 161) "").
Proof. by vm_compute. Qed.

Lemma mayores_cons a x l :
  mayores a (x :: l) =
  ((if decide (js_le a x ∧ a ≠ x) then 1 else 0) + mayores a l)%nat.
Proof. unfold mayores. rewrite filter_cons. by destruct (decide _). Qed.

Lemma mayores_cota x l : Forall (λ y, js_le y x) l → mayores x l = 0%nat.
Proof.
  induction 1 as [|y l Hy _ IH]; [done|].
  rewrite mayores_cons, IH. destruct (decide _) as [[Hle Hne]|_]; [|done].
  destruct Hne. by apply (anti_symm js_le).
Qed.

Lemma mayores_Permutation a l l' : l ≡ₚ l' → mayores a l = mayores a l'.
Proof. unfold mayores. by intros ->. Qed.

(** In a list sorted in strictly descending order the first [n] elements
    are those with fewer than [n] greater elements. *)
Lemma take_descendente n d a :
  StronglySorted (flip js_le) d → NoDup d →
  a ∈ take n d ↔ a ∈ d ∧ (mayores a d < n)%nat.
Proof.
  intros Hs. revert n. induction Hs as [|x d Hs IH Hx]; intros n Hnd.
  { rewrite take_nil. split; [by intros ?%not_elem_of_nil|].
    by intros [?%not_elem_of_nil _]. }
  apply NoDup_cons in Hnd as [Hxd Hnd].
  destruct n as [|n].
  { simpl. split; [by intros ?%not_elem_of_nil|]. intros [_ ?]. lia. }
  simpl. rewrite !elem_of_cons, (IH n Hnd), mayores_cons.
  destruct (decide (a = x)) as [->|Hne].
  - rewrite mayores_cota by done.
    destruct (decide _) as [[_ ?]|_]; [done|]. split; intros _; [split|]; auto; lia.
  - split.
    + intros [?|[Hin Hlt]]; [done|]. split; [by right|].
      destruct (decide _); lia.
    + intros [[?|Hin] Hlt]; [done|]. right. split; [done|].
      rewrite Forall_forall in Hx. specialize (Hx a Hin). unfold flip in Hx.
      destruct (decide _) as [_|Hno]; [lia|]. destruct Hno. done.
Qed.

Lemma sort_descendente g :
  StronglySorted (flip js_le) (reverse (sort g)).
Proof.
  apply Sorted_StronglySorted; [apply _|].
  apply Sorted_reverse, Sorted_merge_sort; apply _.
Qed.

Lemma sort_Permutation g : reverse (sort g) ≡ₚ g.
Proof. unfold sort. by rewrite reverse_Permutation, merge_sort_Permutation. Qed.

(** [sort().reverse().slice(0, 10)] keeps the names of the list that have
    fewer than ten greater names in it. *)
Lemma elem_of_recientes g a :
  NoDup g → a ∈ recientes g ↔ a ∈ g ∧ (mayores a g < 10)%nat.
Proof.
  intros Hnd. unfold recientes.
  rewrite take_descendente.
  - by rewrite (mayores_Permutation _ _ _ (sort_Permutation g)), sort_Permutation.
  - apply sort_descendente.
  - by rewrite sort_Permutation.
Qed.

Lemma length_recientes g : length (recientes g) = (10 `min` length g)%nat.
Proof.
  unfold recientes. rewrite length_take. f_equal.
  apply Permutation_length, sort_Permutation.
Qed.

Lemma NoDup_recientes g : NoDup g → NoDup (recientes g).
Proof.
  intros Hnd. unfold recientes.
  eapply sublist_NoDup; [|apply sublist_take]. by rewrite sort_Permutation.
Qed.

Lemma NoDup_grupo k archivos : NoDup archivos → NoDup (grupo k archivos).
Proof. apply NoDup_filter; apply _. Qed.

(** ** What pruning leaves in a directory *)

Lemma elem_of_podar archivos a :
  NoDup archivos →
  a ∈ podar archivos ↔
  a ∈ archivos ∧
  (startsWith "session-" a = false ∨
   (mayores a (grupo (split_dot_0 a) archivos) < 10)%nat).
Proof.
  intros Hnd. unfold podar, se_elimina.
  rewrite list_elem_of_filter, andb_false_iff, bool_decide_eq_false.
  rewrite elem_of_sesionesActivas, elem_of_recientes by by apply NoDup_grupo.
  rewrite elem_of_grupo. split.
  - intros [[Hs|Hact] Hin]; [tauto|]. apply dec_stable in Hact. tauto.
  - intros [Hin [Hs|Hlt]]; [tauto|]. split; [|done].
    destruct (startsWith "session-" a) eqn:E; [|tauto]. right. tauto.
Qed.

Lemma grupo_podar k archivos :
  NoDup archivos →
  grupo k (podar archivos) ≡ₚ recientes (grupo k archivos).
Proof.
  intros Hnd. apply NoDup_Permutation.
  - apply NoDup_grupo. unfold podar. by apply NoDup_filter.
  - by apply NoDup_recientes, NoDup_grupo.
  - intros a. rewrite elem_of_grupo, elem_of_podar by done.
    rewrite elem_of_recientes, elem_of_grupo by by apply NoDup_grupo.
    split.
    + intros ((Hin & [Hs|Hlt]) & Hs' & <-); [congruence|]. tauto.
    + intros ((Hin & Hs & <-) & Hlt). tauto.
Qed.

Lemma length_grupo_podar k archivos :
  NoDup archivos →
  length (grupo k (podar archivos)) = (10 `min` length (grupo k archivos))%nat.
Proof.
  intros Hnd. rewrite (Permutation_length (grupo_podar k archivos Hnd)).
  apply length_recientes.
Qed.

Lemma filter_todos {A} (P : A → Prop) `{!∀ x, Decision (P x)} (l : list A) :
  Forall P l → filter P l = l.
Proof.
  induction 1 as [|x l Hx _ IH]; [done|]. by rewrite filter_cons_True, IH.
Qed.

Lemma filter_iff_en {A} (P Q : A → Prop)
    `{!∀ x, Decision (P x), !∀ x, Decision (Q x)} (l : list A) :
  (∀ x, x ∈ l → P x ↔ Q x) → filter P l = filter Q l.
Proof.
  induction l as [|x l IH]; intros Hpq; [done|].
  rewrite !filter_cons, IH by (intros y Hy; apply Hpq; by right).
  apply decide_ext, Hpq. by left.
Qed.

Lemma mayores_lt_length a l : a ∈ l → (mayores a l < length l)%nat.
Proof. intros Hin. unfold mayores. apply (length_filter_lt _ _ a); [done|]. tauto. Qed.

Lemma NoDup_podar archivos : NoDup archivos → NoDup (podar archivos).
Proof. unfold podar. by apply NoDup_filter. Qed.

(** Pruning a pruned directory deletes nothing. *)
Lemma podar_idemp archivos : NoDup archivos → podar (podar archivos) = podar archivos.
Proof.
  intros Hnd. unfold podar at 1. apply filter_todos, Forall_forall.
  intros a Ha.
  assert (a ∈ podar (podar archivos)) as H; [|by apply list_elem_of_filter in H as [? _]].
  apply elem_of_podar; [by apply NoDup_podar|]. split; [done|].
  destruct (startsWith "session-" a) eqn:Hs; [right|by left].
  assert (a ∈ grupo (split_dot_0 a) (podar archivos)) as Hg
    by by apply elem_of_grupo.
  apply mayores_lt_length in Hg.
  rewrite length_grupo_podar in Hg by done. lia.
Qed.

(** ** Reasoning in the monad *)

Ltac desplegar :=
  unfold when, modify, gets, ret, throw, try_catch, bind in *; simpl in *.

Section Conserva.
Context (P : World → Prop).

Lemma conserva_ret {A} (a : A) : conserva P (ret a).
Proof. by intros w. Qed.

Lemma conserva_throw {A} e : conserva P (throw (A:=A) e).
Proof. by intros w. Qed.

Lemma conserva_gets {A} (f : World → A) : conserva P (gets f).
Proof. by intros w. Qed.

Lemma conserva_bind {A B} (m : M A) (k : A → M B) :
  conserva P m → (∀ a, conserva P (k a)) → conserva P (bind m k).
Proof.
  intros Hm Hk w Hw. specialize (Hm w Hw). unfold bind.
  destruct (m w) as [[a| |] w']; simpl in *; [by apply Hk|done..].
Qed.

Lemma conserva_try_catch {A} (m : M A) (h : Error → M A) :
  conserva P m → (∀ e, conserva P (h e)) → conserva P (try_catch m h).
Proof.
  intros Hm Hh w Hw. specialize (Hm w Hw). unfold try_catch.
  destruct (m w) as [[a|e|] w']; simpl in *; [done|by apply Hh|done].
Qed.

Lemma conserva_when (b : bool) (m : M unit) :
  (b = true → conserva P m) → conserva P (when b m).
Proof. destruct b; intros H; [by apply H|apply conserva_ret]. Qed.

Lemma conserva_forEach {A} (f : A → M unit) (l : list A) :
  (∀ x, x ∈ l → conserva P (f x)) → conserva P (forEach f l).
Proof.
  induction l as [|x l IH]; intros Hf; [apply conserva_ret|].
  simpl. apply conserva_bind; [apply Hf; by left|].
  intros _. apply IH. intros y Hy. apply Hf. by right.
Qed.

Lemma conserva_modify (f : World → World) :
  (∀ w, P w → P (f w)) → conserva P (modify f).
Proof. intros Hf w Hw. by apply Hf. Qed.
End Conserva.

(** ** Pruning never touches other files *)

Section Limpieza.
Context (env : Env).

Lemma unlinkSync_conserva dir archivo d a :
  a ≠ archivo →
  conserva (λ w, ∃ l, listado w d = Some l ∧ a ∈ l) (unlinkSync env dir archivo).
Proof.
  intros Hne w (l & Hl & Hin). unfold unlinkSync, listado in *.
  destruct (sessions w) as [dirs|] eqn:Hs; [|simpl; rewrite Hs; eauto].
  simpl in Hl.
  destruct (dirs !! dir) as [archivos|] eqn:Hd;
    [|simpl; rewrite Hs; eauto].
  destruct (_ && _); [|simpl; rewrite Hs; eauto].
  simpl. destruct (decide (dir = d)) as [->|Hdd].
  - rewrite lookup_insert_eq. simplify_eq. eexists. split; [done|].
    apply list_elem_of_filter. done.
  - rewrite lookup_insert_ne by done. eauto.
Qed.

Lemma limpiarSesionesAntiguas_conserva d a :
  startsWith "session-" a = false →
  conserva (λ w, ∃ l, listado w d = Some l ∧ a ∈ l) (limpiarSesionesAntiguas env).
Proof.
  intros Ha. unfold limpiarSesionesAntiguas.
  apply conserva_try_catch; [|intros; apply conserva_ret].
  apply conserva_bind; [apply conserva_gets|]. intros hay.
  apply conserva_when. intros _.
  apply conserva_bind; [apply conserva_ret|]. intros empresas.
  apply conserva_forEach. intros empresa _. unfold limpiarEmpresa.
  apply conserva_bind; [apply conserva_gets|]. intros hayDir.
  apply conserva_when. intros _.
  apply conserva_bind.
  { intros w Hw. unfold readdirSync. by destruct (_ ≫= _). }
  intros archivos. apply conserva_forEach. intros archivo _.
  apply conserva_when. intros [Hs _]%andb_true_iff.
  apply unlinkSync_conserva. intros ->. congruence.
Qed.

Lemma unlinkSync_solo_sesiones w0 dir archivo :
  startsWith "session-" archivo = true →
  conserva (λ w, ∀ d f, Unlink d f ∈ trace w →
                        Unlink d f ∈ trace w0 ∨ startsWith "session-" f = true)
           (unlinkSync env dir archivo).
Proof.
  intros Hs w Hw. unfold unlinkSync.
  destruct (sessions w) as [dirs|]; [|done].
  destruct (dirs !! dir) as [archivos|]; [|done].
  destruct (_ && _); [|done].
  simpl. intros d f [Hin|Hin%list_elem_of_singleton]%elem_of_app; [auto|].
  simplify_eq. auto.
Qed.

Lemma limpiarSesionesAntiguas_solo_sesiones w0 :
  conserva (λ w, ∀ d f, Unlink d f ∈ trace w →
                        Unlink d f ∈ trace w0 ∨ startsWith "session-" f = true)
           (limpiarSesionesAntiguas env).
Proof.
  unfold limpiarSesionesAntiguas.
  apply conserva_try_catch; [|intros; apply conserva_ret].
  apply conserva_bind; [apply conserva_gets|]. intros hay.
  apply conserva_when. intros _.
  apply conserva_bind; [apply conserva_ret|]. intros empresas.
  apply conserva_forEach. intros empresa _. unfold limpiarEmpresa.
  apply conserva_bind; [apply conserva_gets|]. intros hayDir.
  apply conserva_when. intros _.
  apply conserva_bind.
  { intros w Hw. unfold readdirSync. by destruct (_ ≫= _). }
  intros archivos. apply conserva_forEach. intros archivo _.
  apply conserva_when. intros [Hs _]%andb_true_iff.
  by apply unlinkSync_solo_sesiones.
Qed.
End Limpieza.

Section LimpiezaExacta.
Context (env : Env).
Hypothesis unlink_siempre : ∀ dir archivo, unlink_ok env dir archivo = true.

(** The last [archivos.forEach], started with [pend] still to visit and
    [cur] in the directory. *)
Lemma eliminar_pendientes activas dir pend :
  ∀ w cur,
    listado w dir = Some cur → NoDup pend → (∀ a, a ∈ pend → a ∈ cur) →
    ∃ w',
      forEach (λ archivo, when (se_elimina activas archivo)
                            (unlinkSync env dir archivo)) pend w = (Ok tt, w') ∧
      listado w' dir =
        Some (filter (λ a, ¬ (a ∈ pend ∧ se_elimina activas a = true)) cur) ∧
      (∀ d, d ≠ dir → listado w' d = listado w d).
Proof.
  induction pend as [|a pend IH]; intros w cur Hcur Hnd Hsub.
  { exists w. split_and!; [done| |done]. rewrite Hcur. f_equal. symmetry.
    apply filter_todos, Forall_forall. intros x _ [?%not_elem_of_nil _]. done. }
  apply NoDup_cons in Hnd as [Hna Hnd].
  assert (a ∈ cur) as Ha by (apply Hsub; by left).
  simpl. destruct (se_elimina activas a) eqn:Hdel.
  - unfold listado in Hcur.
    destruct (sessions w) as [dirs|] eqn:Hs; [simpl in Hcur|done].
    set (w1 := emit (Unlink dir a)
                 (with_sessions (λ _, Some (<[dir := filter (.≠ a) cur]> dirs)) w)).
    assert (unlinkSync env dir a w = (Ok tt, w1)) as Hun.
    { unfold unlinkSync. rewrite Hs, Hcur, unlink_siempre.
      by rewrite bool_decide_eq_true_2. }
    destruct (IH w1 (filter (.≠ a) cur)) as (w' & Hrun & Hl & Hotros).
    { unfold listado, w1. simpl. by rewrite lookup_insert_eq. }
    { done. }
    { intros b Hb. apply list_elem_of_filter. split; [|apply Hsub; by right].
      intros ->. done. }
    exists w'. split_and!.
    + unfold when, bind. simpl. by rewrite Hun.
    + rewrite Hl. f_equal. rewrite list_filter_filter.
      apply list_filter_iff. intros x. rewrite elem_of_cons. split.
      * intros [Hno Hxa] [[->|Hx] Hd]; [done|]. apply Hno. done.
      * intros Hno. split; [|intros ->; apply Hno; auto].
        intros [Hx Hd]. apply Hno. auto.
    + intros d Hd. rewrite Hotros by done. unfold listado, w1. simpl.
      rewrite Hs. simpl. by rewrite lookup_insert_ne.
  - destruct (IH w cur) as (w' & Hrun & Hl & Hotros); [done..| |].
    { intros b Hb. apply Hsub. by right. }
    exists w'. split_and!; [done| |done].
    rewrite Hl. f_equal. apply list_filter_iff. intros x.
    rewrite elem_of_cons. split.
    + intros Hno [[->|Hx] Hd]; [congruence|]. apply Hno. done.
    + intros Hno [Hx Hd]. apply Hno. auto.
Qed.

(** One tenant directory is left with exactly [podar] of its listing. *)
Lemma limpiarEmpresa_exacto empresa w :
  (∀ l, listado w (id empresa) = Some l → NoDup l) →
  ∃ w',
    limpiarEmpresa env empresa w = (Ok tt, w') ∧
    ∀ d, listado w' d =
         if decide (d = id empresa) then podar <$> listado w d else listado w d.
Proof.
  intros Hnd. unfold limpiarEmpresa, existsSync, readdirSync.
  unfold bind, gets. simpl.
  destruct (listado w (id empresa)) as [archivos|] eqn:Hl;
    pose proof Hl as Hl2; unfold listado in Hl2; rewrite Hl2; last first.
  { rewrite bool_decide_eq_false_2 by by intros []. exists w.
    split; [done|]. intros d. destruct (decide _) as [->|]; [|done].
    by rewrite Hl. }
  rewrite bool_decide_eq_true_2 by eauto. simpl. rewrite Hl2.
  destruct (eliminar_pendientes (sesionesActivas archivos) (id empresa)
              archivos w archivos) as (w' & Hrun & Hl' & Hotros);
    [done|by apply Hnd|done|].
  exists w'. split; [done|]. intros d.
  destruct (decide _) as [->|Hd]; [|by apply Hotros].
  rewrite Hl', Hl. simpl. f_equal. unfold podar.
  apply filter_iff_en. intros x Hx. split.
  - intros Hno. destruct (se_elimina _ x) eqn:E; [|done]. by destruct Hno.
  - intros E [_ E']. congruence.
Qed.

Lemma limpiar_empresas_exacto empresas :
  ∀ w,
    (∀ e l, e ∈ empresas → listado w (id e) = Some l → NoDup l) →
    ∃ w',
      forEach (limpiarEmpresa env) empresas w = (Ok tt, w') ∧
      ∀ d, listado w' d =
           if decide (d ∈ id <$> empresas) then podar <$> listado w d
           else listado w d.
Proof.
  induction empresas as [|e empresas IH]; intros w Hnd.
  { exists w. split; [done|]. intros d.
    destruct (decide _) as [?%not_elem_of_nil|]; done. }
  destruct (limpiarEmpresa_exacto e w) as (w1 & Hrun1 & Hl1).
  { intros l. apply Hnd. by left. }
  destruct (IH w1) as (w' & Hrun & Hl).
  { intros e' l He'. rewrite Hl1.
    destruct (decide _) as [Heq|_]; [|apply Hnd; by right].
    rewrite Heq. destruct (listado w (id e)) as [l0|] eqn:E; [|done].
    intros [= <-]. apply NoDup_podar. eapply (Hnd e); [by left|done]. }
  exists w'. split.
  { simpl. unfold bind. by rewrite Hrun1. }
  intros d. rewrite Hl, Hl1.
  destruct (decide (d ∈ id <$> e :: empresas)) as [Hin|Hin];
    rewrite fmap_cons, elem_of_cons in Hin;
    destruct (decide (d = id e)) as [->|Hne];
    destruct (decide (_ ∈ id <$> empresas)) as [Hin'|Hin'];
    try done; try tauto.
  destruct (listado w (id e)) as [l|] eqn:E; [|done]. simpl.
  f_equal. apply podar_idemp. eapply (Hnd e); [by left|done].
Qed.

(** Every directory of a listed tenant is left with [podar] of its
    listing, every other directory as it was; nothing is thrown. *)
Lemma limpiarSesionesAntiguas_exacto w :
  (∀ e l, e ∈ empresasData env → listado w (id e) = Some l → NoDup l) →
  ∃ w',
    limpiarSesionesAntiguas env w = (Ok tt, w') ∧
    ∀ d, listado w' d =
         if decide (d ∈ id <$> empresasData env) then podar <$> listado w d
         else listado w d.
Proof.
  intros Hnd. unfold limpiarSesionesAntiguas, existsSync_sessionsDir,
    obtenerEmpresas, try_catch, bind, gets, ret. simpl.
  destruct (sessions w) as [dirs|] eqn:Hs.
  - rewrite bool_decide_eq_true_2 by eauto. simpl.
    destruct (limpiar_empresas_exacto (empresasData env) w Hnd)
      as (w' & -> & Hl). eauto.
  - rewrite bool_decide_eq_false_2 by by intros []. simpl.
    exists w. split; [done|]. intros d. unfold listado. rewrite Hs. simpl.
    by destruct (decide _).
Qed.
End LimpiezaExacta.

Lemma sort_unico g g' : g ≡ₚ g' → sort g = sort g'.
Proof.
  intros Hp. unfold sort.
  apply (Sorted_unique js_le); [apply Sorted_merge_sort; apply _..|].
  by rewrite !merge_sort_Permutation.
Qed.

Lemma recientes_unico g g' : g ≡ₚ g' → recientes g = recientes g'.
Proof. intros Hp. unfold recientes. by rewrite (sort_unico g g' Hp). Qed.






(** ** Session pruning: the claims *)




(** C10. Pruning touches only session artifacts: whatever the file system
    answers, a file whose name does not start with [session-] (such as
    [creds.json]) is still in its directory after
    [limpiarSesionesAntiguas], and every unlink that pruning performs is of
    a name with the [session-] prefix. *)
Theorem pruning_spares_other_files env w dir archivos a :
  listado w dir = Some archivos →
  a ∈ archivos →
  startsWith "session-" a = false →
  (∃ restantes,
     listado (limpiarSesionesAntiguas env w).2 dir = Some restantes ∧
     a ∈ restantes) ∧
  (∀ d f, Unlink d f ∈ trace (limpiarSesionesAntiguas env w).2 →
          Unlink d f ∈ trace w ∨ startsWith "session-" f = true).
Proof.
  intros Hl Hin Ha. split.
  - apply (limpiarSesionesAntiguas_conserva env dir a Ha w). eauto.
  - apply (limpiarSesionesAntiguas_solo_sesiones env w w). auto.
Qed.

Lemma pruning_spares_other_files_witness :
  (∃ restantes,
     listado (limpiarSesionesAntiguas entorno_t1 mundo_t1).2 "t1" = Some restantes ∧
     "creds.json" ∈ restantes) ∧
  (∀ d f, Unlink d f ∈ trace (limpiarSesionesAntiguas entorno_t1 mundo_t1).2 →
          Unlink d f ∈ trace mundo_t1 ∨ startsWith "session-" f = true).
Proof.
  apply (pruning_spares_other_files entorno_t1 mundo_t1 "t1" ("creds.json" :: quince)).
  - reflexivity.
  - left.
  - reflexivity.
Defined.

(** ** Starting a session *)

(** [iniciarBot] always returns: six rounds are enough for the retries of
    its [catch] branch, whatever the counter holds. *)
Lemma iniciarBot_fuel_total env empresa fuel :
  ∀ w, (1 ≤ fuel)%nat →
       (6 ≤ fuel + N.to_nat (intentos w (id empresa)))%nat →
       (iniciarBot_fuel env fuel empresa w).1 = Ok tt.
Proof.
  induction fuel as [|fuel IH]; intros w Hpos Hfuel; [lia|].
  simpl. desplegar.
  destruct (bool_decide (is_Some (bots w !! id empresa))); [done|].
  unfold existsSync, mkdirSync, makeWASocket. desplegar.
  match goal with |- context [negb ?b] => destruct b end; simpl;
    (match goal with |- context [provider_ok ?e ?t] =>
       destruct (provider_ok e t) end; simpl; [done|]);
    unfold MAX_RECONNECT_ATTEMPTS;
    (match goal with |- context [?a <=? 5] => destruct (N.leb_spec a 5) end;
     simpl; [|done]);
    (apply IH; unfold intentos in *; simpl in *;
     rewrite ?lookup_insert_eq; simpl; lia).
Qed.

Lemma iniciarBot_total env empresa w : (iniciarBot env empresa w).1 = Ok tt.
Proof. apply iniciarBot_fuel_total; lia. Qed.

(** C9. Idempotent start: when the registry already holds a handle for the
    tenant, [iniciarBot] returns at once and the whole state is as before:
    the registry, the attempt counters and the session store are unchanged
    and no effect is performed, so no provider connection is opened. *)
Theorem idempotent_start env empresa w :
  is_Some (bots w !! id empresa) →
  iniciarBot env empresa w = (Ok tt, w) ∧
  efectos (iniciarBot env empresa) w = [].
Proof.
  intros Hya. assert (iniciarBot env empresa w = (Ok tt, w)) as Heq.
  { unfold iniciarBot. simpl. desplegar. by rewrite bool_decide_eq_true_2. }
  split; [done|]. unfold efectos. rewrite Heq. simpl. apply drop_all.
Qed.

Lemma idempotent_start_witness :
  iniciarBot entorno_t1 empresa_t1 mundo_conectado = (Ok tt, mundo_conectado) ∧
  efectos (iniciarBot entorno_t1 empresa_t1) mundo_conectado = [].
Proof.
  apply (idempotent_start entorno_t1 empresa_t1 mundo_conectado).
  exists 0%nat. reflexivity.
Defined.

(** ** The trace only grows *)

Lemma efectos_app {A} (m : M A) w extra :
  trace (m w).2 = trace w ++ extra → efectos m w = extra.
Proof. intros H. unfold efectos. rewrite H. apply drop_app_length. Qed.

Section Traza.
Context (env : Env) (w0 : World).

Lemma extiende_emit ef w : extiende w0 w → extiende w0 (emit ef w).
Proof. unfold extiende. simpl. apply prefix_app_r. Qed.

Lemma iniciarBot_fuel_crece fuel empresa :
  conserva (extiende w0) (iniciarBot_fuel env fuel empresa).
Proof.
  induction fuel as [|fuel IH]; [by intros w|].
  simpl. apply conserva_bind; [apply conserva_gets|]. intros ya.
  destruct ya; [apply conserva_ret|].
  apply conserva_try_catch.
  - apply conserva_bind; [apply conserva_gets|]. intros hay.
    apply conserva_bind.
    { apply conserva_when. intros _. apply conserva_modify.
      intros w Hw. by apply extiende_emit. }
    intros _. apply conserva_bind.
    { intros w Hw. unfold makeWASocket.
      destruct (provider_ok _ _); simpl; by apply extiende_emit. }
    intros sock. by apply conserva_modify.
  - intros _. apply conserva_bind; [apply conserva_gets|]. intros w.
    destruct (_ <=? _); [|apply conserva_ret].
    apply conserva_bind; [by apply conserva_modify|]. intros _.
    apply conserva_bind; [|done].
    apply conserva_modify. intros w' Hw'. by apply extiende_emit.
Qed.

Lemma reconectar_crece empresa : conserva (extiende w0) (reconectar env empresa).
Proof.
  unfold reconectar.
  apply conserva_bind; [apply conserva_gets|]. intros ya.
  apply conserva_bind; [|intros _; apply iniciarBot_fuel_crece].
  apply conserva_when. intros _.
  apply conserva_bind; [apply conserva_gets|]. intros [oldSock|];
    [|apply conserva_ret].
  apply conserva_bind; [|intros _; by apply conserva_modify].
  apply conserva_modify. intros w Hw. by apply extiende_emit.
Qed.
End Traza.

(** ** The handler of [connection.update] on a close *)

Section Reconexion.
Context (env : Env) (empresa : Empresa).

(** Not a logout and attempts left: the counter is stored, and the wait
    and the reconnect follow. *)
Lemma cierre_reintenta u w :
  cierre_transitorio u →
  intentos w (id empresa) + 1 ≤ MAX_RECONNECT_ATTEMPTS →
  connection_update env empresa u w =
  try_catch
    (esperar (backoff (intentos w (id empresa) + 1)) >> reconectar env empresa)
    (λ _, ret tt)
    (with_attempts <[id empresa := intentos w (id empresa) + 1]> w).
Proof.
  intros (Hc & Hs & Hq) Hle. unfold connection_update. rewrite Hc, Hq.
  unfold when, bind at 1, ret at 1. unfold bind at 1, gets at 1.
  rewrite bool_decide_eq_false_2 by done.
  apply N.leb_le in Hle. rewrite Hle. simpl. reflexivity.
Qed.

(** No attempts left: the handle and the counter go, nothing else
    happens. *)
Lemma cierre_agotado u w :
  connection u = Some close →
  truthy (qr u) = false →
  MAX_RECONNECT_ATTEMPTS < intentos w (id empresa) + 1 →
  connection_update env empresa u w =
  (Ok tt, with_attempts (delete (id empresa)) (with_bots (delete (id empresa)) w)).
Proof.
  intros Hc Hq Hlt. unfold connection_update. rewrite Hc, Hq.
  unfold when, bind at 1, ret at 1. unfold bind at 1, gets at 1.
  pose proof Hlt as Hlt'. apply N.ltb_lt in Hlt'. rewrite Hlt'.
  apply N.leb_gt in Hlt. rewrite Hlt, andb_false_r. reflexivity.
Qed.

(** A logout with attempts left: nothing at all happens. *)
Lemma cierre_logout_sin_efecto u w :
  connection u = Some close →
  statusCode u = Some DisconnectReason_loggedOut →
  truthy (qr u) = false →
  intentos w (id empresa) + 1 ≤ MAX_RECONNECT_ATTEMPTS →
  connection_update env empresa u w = (Ok tt, w).
Proof.
  intros Hc Hs Hq Hle. unfold connection_update. rewrite Hc, Hq, Hs.
  unfold when, bind at 1, ret at 1. unfold bind at 1, gets at 1.
  rewrite bool_decide_eq_true_2 by done. simpl.
  apply N.ltb_ge in Hle. rewrite Hle. reflexivity.
Qed.

(** When the provider opens, a start without a handle registers a fresh
    one, leaves the counter as it was, waits for nothing and opens the
    provider once. *)
Lemma iniciarBot_fuel_exito fuel w :
  (∀ t, provider_ok env t = true) →
  bots w !! id empresa = None →
  ∃ w' extra,
    iniciarBot_fuel env (S fuel) empresa w = (Ok tt, w') ∧
    is_Some (bots w' !! id empresa) ∧
    connectionAttempts w' = connectionAttempts w ∧
    trace w' = trace w ++ extra ∧
    esperas extra = [] ∧
    aperturas extra = [id empresa].
Proof.
  intros Hok Hb. simpl.
  unfold existsSync, mkdirSync, makeWASocket. desplegar.
  rewrite Hb, bool_decide_eq_false_2 by by intros []. simpl.
  destruct (bool_decide (is_Some (sessions w ≫= _))); simpl;
    rewrite Hok; simpl; eexists _, _; split_and!; try done; simpl;
    rewrite ?lookup_insert_eq; eauto; by rewrite <-?app_assoc.
Qed.

(** So does the reconnect, after ending the old socket if there is one. *)
Lemma reconectar_exito w :
  (∀ t, provider_ok env t = true) →
  ∃ w' extra,
    reconectar env empresa w = (Ok tt, w') ∧
    is_Some (bots w' !! id empresa) ∧
    connectionAttempts w' = connectionAttempts w ∧
    trace w' = trace w ++ extra ∧
    esperas extra = [] ∧
    aperturas extra = [id empresa].
Proof.
  intros Hok. unfold reconectar, iniciarBot, sock_end.
  unfold when, bind at 1, gets at 1.
  destruct (bots w !! id empresa) as [s|] eqn:Hb.
  - rewrite bool_decide_eq_true_2 by eauto.
    unfold bind at 1. unfold bind at 1, gets at 1. rewrite Hb.
    unfold bind at 1, modify.
    set (w1 := with_bots (delete (id empresa)) (emit (SockEnd s) w)).
    destruct (iniciarBot_fuel_exito 5 w1 Hok)
      as (w' & extra & -> & Hh & Hc & Ht & He & Ha).
    { unfold w1. simpl. apply lookup_delete_eq. }
    exists w', (SockEnd s :: extra). split_and!; try done.
    rewrite Ht. unfold w1. simpl. by rewrite <-app_assoc.
  - rewrite bool_decide_eq_false_2 by by intros [].
    unfold bind at 1, ret at 1.
    destruct (iniciarBot_fuel_exito 5 w Hok Hb)
      as (w' & extra & -> & Hh & Hc & Ht & He & Ha).
    exists w', extra. done.
Qed.

(** One close that is not a logout, with attempts left and a provider
    that opens: the counter goes up by one, a handle is registered again,
    and exactly one wait, of the backoff delay, and one provider open are
    performed. *)
Lemma cierre_paso u w :
  (∀ t, provider_ok env t = true) →
  cierre_transitorio u →
  intentos w (id empresa) + 1 ≤ MAX_RECONNECT_ATTEMPTS →
  ∃ w',
    connection_update env empresa u w = (Ok tt, w') ∧
    connectionAttempts w' !! id empresa = Some (intentos w (id empresa) + 1) ∧
    is_Some (bots w' !! id empresa) ∧
    esperas (efectos (connection_update env empresa u) w) =
      [backoff (intentos w (id empresa) + 1)] ∧
    aperturas (efectos (connection_update env empresa u) w) = [id empresa].
Proof.
  intros Hok Hu Hle.
  pose proof (cierre_reintenta u w Hu Hle) as Heq.
  set (c := intentos w (id empresa) + 1) in *.
  set (w1 := emit (Esperar (backoff c))
               (with_attempts <[id empresa := c]> w)).
  destruct (reconectar_exito w1 Hok)
    as (w' & extra & Hrun & Hh & Hc & Ht & He & Ha).
  assert (connection_update env empresa u w = (Ok tt, w')) as Hres.
  { rewrite Heq. unfold try_catch, bind, esperar, modify. fold w1.
    by rewrite Hrun. }
  assert (efectos (connection_update env empresa u) w =
          Esperar (backoff c) :: extra) as Hef.
  { apply efectos_app. rewrite Hres. simpl. rewrite Ht. unfold w1. simpl.
    by rewrite <-app_assoc. }
  exists w'. split_and!; [done| |done|..].
  - rewrite Hc. unfold w1. simpl. apply lookup_insert_eq.
  - rewrite Hef. simpl. by rewrite He.
  - rewrite Hef. simpl. done.
Qed.

(** In such a step the wait comes first: the socket is ended and the
    provider opened only after it. *)
Lemma cierre_paso_orden u w :
  (∀ t, provider_ok env t = true) →
  cierre_transitorio u →
  intentos w (id empresa) + 1 ≤ MAX_RECONNECT_ATTEMPTS →
  ∃ resto,
    efectos (connection_update env empresa u) w =
      Esperar (backoff (intentos w (id empresa) + 1)) :: resto ∧
    esperas resto = [] ∧
    aperturas resto = [id empresa].
Proof.
  intros Hok Hu Hle.
  pose proof (cierre_reintenta u w Hu Hle) as Heq.
  set (c := intentos w (id empresa) + 1) in *.
  set (w1 := emit (Esperar (backoff c))
               (with_attempts <[id empresa := c]> w)).
  destruct (reconectar_exito w1 Hok)
    as (w' & extra & Hrun & Hh & Hc & Ht & He & Ha).
  exists extra. split_and!; [|done..].
  apply efectos_app. rewrite Heq. unfold try_catch, bind, esperar, modify.
  fold w1. rewrite Hrun. simpl. rewrite Ht. unfold w1. simpl.
  by rewrite <-app_assoc.
Qed.

(** [k] such closes in a row, started with the counter reading [c]. *)
Lemma procesar_cierres us :
  ∀ w,
    (∀ t, provider_ok env t = true) →
    Forall cierre_transitorio us →
    intentos w (id empresa) + N.of_nat (length us) ≤ MAX_RECONNECT_ATTEMPTS →
    intentos (procesar env empresa us w) (id empresa) =
      intentos w (id empresa) + N.of_nat (length us) ∧
    (us ≠ [] →
     is_Some (bots (procesar env empresa us w) !! id empresa) ∧
     is_Some (connectionAttempts (procesar env empresa us w) !! id empresa)).
Proof.
  induction us as [|u us IH]; intros w Hok Hus Hle.
  { simpl. split; [lia|done]. }
  apply Forall_cons in Hus as [Hu Hus]. simpl length in Hle.
  destruct (cierre_paso u w Hok Hu) as (w' & Hrun & Hc & Hh & _); [lia|].
  assert (intentos w' (id empresa) = intentos w (id empresa) + 1) as Hi.
  { unfold intentos at 1. by rewrite Hc. }
  unfold procesar. simpl. rewrite Hrun. simpl.
  fold (procesar env empresa us w').
  destruct (IH w' Hok Hus) as [IH1 IH2]; [lia|].
  split; [simpl length; lia|]. intros _.
  destruct us as [|u' us']; [|by apply IH2].
  simpl. split; [done|]. by rewrite Hc.
Qed.
End Reconexion.

Section Cierre.
Context (env : Env) (empresa : Empresa).

Lemma trace_tras_qr u w :
  trace (tras_qr empresa u w) =
  trace w ++ (if truthy (qr u) then [QrGenerate (default "" (qr u))] else []).
Proof. unfold tras_qr. destruct (truthy _); simpl; by rewrite ?app_nil_r. Qed.

(** The handler on a close, whatever else the update carries. *)
Lemma connection_update_close u w :
  connection u = Some close →
  connection_update env empresa u w =
  let w1 := tras_qr empresa u w in
  let attempts := intentos w1 (id empresa) + 1 in
  if negb (bool_decide (statusCode u = Some DisconnectReason_loggedOut))
     && (attempts <=? MAX_RECONNECT_ATTEMPTS)
  then try_catch (esperar (backoff attempts) >> reconectar env empresa)
         (λ _, ret tt) (with_attempts <[id empresa := attempts]> w1)
  else if MAX_RECONNECT_ATTEMPTS <? attempts
  then (Ok tt, with_attempts (delete (id empresa))
                 (with_bots (delete (id empresa)) w1))
  else (Ok tt, w1).
Proof.
  intros Hc. unfold connection_update, tras_qr. rewrite Hc.
  destruct (truthy (qr u)); simpl; desplegar;
    destruct (negb _ && _); [done| |done|]; by destruct (_ <? _).
Qed.

Lemma connection_update_open u w :
  connection u = Some open →
  connection_update env empresa u w =
  (Ok tt, with_attempts (delete (id empresa)) (tras_qr empresa u w)).
Proof.
  intros Hc. unfold connection_update, tras_qr. rewrite Hc.
  by destruct (truthy (qr u)).
Qed.

(** After the wait, the handler only appends to the trace. *)
Lemma reintento_crece d w :
  ∃ resto,
    trace (try_catch (esperar d >> reconectar env empresa) (λ _, ret tt) w).2 =
    trace w ++ Esperar d :: resto.
Proof.
  pose proof (conserva_try_catch (extiende (emit (Esperar d) w))
                (reconectar env empresa) (λ _, ret tt)
                (reconectar_crece env _ empresa)
                (λ _, conserva_ret _ tt) (emit (Esperar d) w)) as H.
  destruct H as [resto Hresto]; [by exists []; rewrite app_nil_r|].
  exists resto.
  unfold try_catch, bind, esperar, modify in *. simpl in *.
  rewrite <-app_assoc in Hresto. done.
Qed.
End Cierre.

(** The reconnect and the handler always return, and normally. *)
Lemma reconectar_total env empresa w : (reconectar env empresa w).1 = Ok tt.
Proof.
  unfold reconectar, sock_end. unfold when, bind at 1, gets at 1.
  destruct (bots w !! id empresa) as [s|] eqn:Hb.
  - rewrite bool_decide_eq_true_2 by eauto.
    unfold bind at 1. unfold bind at 1, gets at 1. rewrite Hb.
    unfold bind at 1, modify. apply iniciarBot_total.
  - rewrite bool_decide_eq_false_2 by by intros [].
    unfold bind at 1, ret at 1. apply iniciarBot_total.
Qed.

Lemma connection_update_total env empresa u w :
  (connection_update env empresa u w).1 = Ok tt.
Proof.
  destruct (connection u) as [[| |]|] eqn:Hc.
  - rewrite connection_update_close by done. simpl.
    destruct (_ && _); [|by destruct (_ <? _)].
    unfold try_catch, bind at 1, esperar, modify.
    match goal with |- context [reconectar env empresa ?w1] =>
      pose proof (reconectar_total env empresa w1) as Hr;
      destruct (reconectar env empresa w1) as [o w2] end.
    simpl in Hr. by rewrite Hr.
  - by rewrite connection_update_open.
  - unfold connection_update. rewrite Hc. by destruct (truthy (qr u)).
  - unfold connection_update. rewrite Hc. by destruct (truthy (qr u)).
Qed.

(** Whatever the environment answers, a close that is not a logout and
    whose attempt number is within the maximum waits first for the backoff
    delay of that attempt. *)
Lemma cierre_espera env empresa u w :
  connection u = Some close →
  statusCode u ≠ Some DisconnectReason_loggedOut →
  intentos (tras_qr empresa u w) (id empresa) + 1 ≤ MAX_RECONNECT_ATTEMPTS →
  head (esperas (efectos (connection_update env empresa u) w)) =
    Some (backoff (intentos (tras_qr empresa u w) (id empresa) + 1)).
Proof.
  intros Hc Hs Hle.
  set (a := intentos (tras_qr empresa u w) (id empresa) + 1) in *.
  destruct (reintento_crece env empresa (backoff a)
              (with_attempts <[id empresa := a]> (tras_qr empresa u w)))
    as [resto Hresto].
  rewrite (efectos_app _ _
             ((if truthy (qr u) then [QrGenerate (default "" (qr u))] else []) ++
              Esperar (backoff a) :: resto)).
  { by destruct (truthy (qr u)). }
  rewrite connection_update_close by done. simpl. fold a.
  rewrite bool_decide_eq_false_2 by done.
  apply N.leb_le in Hle. rewrite Hle. simpl.
  etrans; [apply Hresto|].
  simpl. by rewrite trace_tras_qr, <-app_assoc.
Qed.

(** ** The reconnect state machine: the claims *)

(** C3. Logout short-circuit: whatever the attempt counter holds, a close
    whose status code is the logged-out one performs no wait and opens no
    provider connection; the only effect the handler can have is printing
    the pairing code the update may carry. *)
Theorem logout_short_circuit env empresa u w :
  connection u = Some close →
  statusCode u = Some DisconnectReason_loggedOut →
  (connection_update env empresa u w).1 = Ok tt ∧
  efectos (connection_update env empresa u) w =
    (if truthy (qr u) then [QrGenerate (default "" (qr u))] else []) ∧
  esperas (efectos (connection_update env empresa u) w) = [] ∧
  aperturas (efectos (connection_update env empresa u) w) = [].
Proof.
  intros Hc Hs.
  assert (∃ w', connection_update env empresa u w = (Ok tt, w') ∧
                trace w' = trace (tras_qr empresa u w)) as (w' & Heq & Ht).
  { rewrite connection_update_close by done. simpl.
    rewrite bool_decide_eq_true_2 by done. simpl.
    destruct (_ <? _); eauto. }
  assert (efectos (connection_update env empresa u) w =
          (if truthy (qr u) then [QrGenerate (default "" (qr u))] else []))
    as Hef.
  { apply efectos_app. rewrite Heq. simpl. rewrite Ht. apply trace_tras_qr. }
  rewrite Hef, Heq. by destruct (truthy (qr u)).
Qed.

Lemma logout_short_circuit_witness :
  (connection_update entorno_t1 empresa_t1 cierre_logout mundo_reintentando).1 = Ok tt ∧
  efectos (connection_update entorno_t1 empresa_t1 cierre_logout) mundo_reintentando =
    (if truthy (qr cierre_logout)
     then [QrGenerate (default "" (qr cierre_logout))] else []) ∧
  esperas (efectos (connection_update entorno_t1 empresa_t1 cierre_logout)
             mundo_reintentando) = [] ∧
  aperturas (efectos (connection_update entorno_t1 empresa_t1 cierre_logout)
               mundo_reintentando) = [].
Proof.
  apply (logout_short_circuit entorno_t1 empresa_t1 cierre_logout mundo_reintentando);
    reflexivity.
Defined.




(** C5. Reset on success: after an open event the attempt counter of the
    tenant reads 0 (the status report shows 0 reconnect attempts), and the
    next close that is not a logout waits first for the delay of attempt
    1, that is 2000 ms, whatever the counter held before the open. *)
Theorem reset_on_success env empresa u w :
  connection u = Some open →
  let w1 := (connection_update env empresa u w).2 in
  (connection_update env empresa u w).1 = Ok tt ∧
  intentos w1 (id empresa) = 0 ∧
  intentosReconexion (obtenerEstadoBot (id empresa) w1) = 0 ∧
  ∀ cierre,
    connection cierre = Some close →
    statusCode cierre ≠ Some DisconnectReason_loggedOut →
    head (esperas (efectos (connection_update env empresa cierre) w1)) =
      Some (backoff 1) ∧
    backoff 1 = 2000.
Proof.
  intros Hc. rewrite connection_update_open by done. simpl.
  set (w1 := with_attempts _ _).
  assert (intentos w1 (id empresa) = 0) as H0.
  { unfold intentos, w1. simpl. by rewrite lookup_delete_eq. }
  split_and!; [done..|]. intros cierre Hcl Hs. split; [|done].
  assert (intentos (tras_qr empresa cierre w1) (id empresa) = 0) as H1.
  { unfold tras_qr. destruct (truthy _); [|done].
    unfold intentos. simpl. by rewrite lookup_insert_eq. }
  rewrite cierre_espera by (rewrite ?H1; done). by rewrite H1.
Qed.

Lemma reset_on_success_witness :
  let w1 := (connection_update entorno_t1 empresa_t1 apertura
               mundo_reintentando).2 in
  (connection_update entorno_t1 empresa_t1 apertura mundo_reintentando).1 = Ok tt ∧
  intentos w1 (id empresa_t1) = 0 ∧
  intentosReconexion (obtenerEstadoBot (id empresa_t1) w1) = 0 ∧
  ∀ cierre,
    connection cierre = Some close →
    statusCode cierre ≠ Some DisconnectReason_loggedOut →
    head (esperas (efectos (connection_update entorno_t1 empresa_t1 cierre) w1)) =
      Some (backoff 1) ∧
    backoff 1 = 2000.
Proof.
  apply (reset_on_success entorno_t1 empresa_t1 apertura mundo_reintentando).
  reflexivity.
Defined.

Lemma intentos_tras_apertura env empresa ap w :
  connection ap = Some open →
  intentos (connection_update env empresa ap w).2 (id empresa) = 0.
Proof.
  intros Hc. rewrite connection_update_open by done.
  unfold intentos. simpl. by rewrite lookup_delete_eq.
Qed.

(** C2, as stated, fails: the counter the delay is computed from is also
    incremented by every failure to open, and reset by a pairing code.
    After an open, the first close that is not a logout waits 2000 ms; the
    reconnect it starts fails to open the provider once and succeeds
    5000 ms later, leaving the counter at 2; the second close in a row then
    waits 8000 ms, not [min (1000 * 2^2) 30000 = 4000]. And when every
    reconnect opens, a second close in a row that carries a pairing code
    waits 2000 ms. *)
Lemma backoff_formula_counterexample :
  let w1 := procesar entorno_un_fallo empresa_t1 [apertura] mundo_conectado in
  let w2 := procesar entorno_un_fallo empresa_t1 [apertura; cierre_428]
              mundo_conectado in
  let w2' := procesar entorno_t1 empresa_t1 [apertura; cierre_428]
               mundo_conectado in
  efectos (connection_update entorno_un_fallo empresa_t1 cierre_428) w1 =
    [Esperar 2000; SockEnd 0%nat; ProviderOpen "t1"; Esperar 5000;
     ProviderOpen "t1"] ∧
  intentos w2 "t1" = 2 ∧
  efectos (connection_update entorno_un_fallo empresa_t1 cierre_428) w2 =
    [Esperar 8000; SockEnd 5%nat; ProviderOpen "t1"] ∧
  efectos (connection_update entorno_t1 empresa_t1 cierre_con_qr) w2' =
    [QrGenerate "2@abc"; Esperar 2000; SockEnd 3%nat; ProviderOpen "t1"] ∧
  N.min (1000 * 2 ^ 2) 30000 = 4000 ∧
  esperas (efectos (connection_update entorno_un_fallo empresa_t1 cierre_428) w2)
    ≠ [N.min (1000 * 2 ^ 2) 30000] ∧
  esperas (efectos (connection_update entorno_t1 empresa_t1 cierre_con_qr) w2')
    ≠ [N.min (1000 * 2 ^ 2) 30000].
Proof.
  cbv zeta. split_and!; try (vm_compute; reflexivity);
    intros H; vm_compute in H; discriminate.
Qed.

(** C2, amended. After an open, on the [n]-th of [n] closes in a row that
    are not logouts and carry no pairing code ([1 ≤ n ≤ 5]), with a
    provider that opens whenever a reconnect asks for it, the handler first
    waits [min (1000 * 2^n) 30000] ms and only then starts the session
    again: the wait is the first effect of the handler, and what follows it
    holds no further wait and exactly one provider open, that of the
    tenant. The delay is 2000 ms for [n = 1] and 30000 ms for [n = 5]. *)
Theorem backoff_formula_amended env empresa w0 ap us u (n : nat) :
  (∀ t, provider_ok env t = true) →
  connection ap = Some open →
  Forall cierre_transitorio us →
  cierre_transitorio u →
  (1 ≤ n ≤ 5)%nat →
  length us = (n - 1)%nat →
  let w := procesar env empresa (ap :: us) w0 in
  intentos w (id empresa) + 1 = N.of_nat n ∧
  (∃ resto,
     efectos (connection_update env empresa u) w =
       Esperar (N.min (1000 * 2 ^ N.of_nat n) 30000) :: resto ∧
     esperas resto = [] ∧
     aperturas resto = [id empresa]) ∧
  N.min (1000 * 2 ^ 1) 30000 = 2000 ∧
  N.min (1000 * 2 ^ 5) 30000 = 30000.
Proof.
  intros Hok Hap Hus Hu Hn Hlen w.
  set (w1 := (connection_update env empresa ap w0).2).
  assert (w = procesar env empresa us w1) as Hw by done.
  assert (intentos w1 (id empresa) = 0) as H0
    by by apply intentos_tras_apertura.
  destruct (procesar_cierres env empresa us w1 Hok Hus) as [Hi _].
  { rewrite H0, Hlen. unfold MAX_RECONNECT_ATTEMPTS. lia. }
  rewrite <-Hw, H0, Hlen in Hi.
  destruct (cierre_paso_orden env empresa u w Hok Hu)
    as (resto & Hef & He & Ha).
  { rewrite Hi. unfold MAX_RECONNECT_ATTEMPTS. lia. }
  split_and!; [rewrite Hi; lia| |done..].
  exists resto. split_and!; [|done..].
  rewrite Hef, Hi. unfold backoff.
  by replace (0 + N.of_nat (n - 1) + 1) with (N.of_nat n) by lia.
Qed.

Lemma backoff_formula_amended_witness :
  let w := procesar entorno_t1 empresa_t1 [apertura; cierre_428; cierre_428]
             mundo_conectado in
  intentos w (id empresa_t1) + 1 = N.of_nat 3 ∧
  (∃ resto,
     efectos (connection_update entorno_t1 empresa_t1 cierre_428) w =
       Esperar (N.min (1000 * 2 ^ N.of_nat 3) 30000) :: resto ∧
     esperas resto = [] ∧
     aperturas resto = [id empresa_t1]) ∧
  N.min (1000 * 2 ^ 1) 30000 = 2000 ∧
  N.min (1000 * 2 ^ 5) 30000 = 30000.
Proof.
  apply (backoff_formula_amended entorno_t1 empresa_t1 mundo_conectado apertura
           [cierre_428; cierre_428] cierre_428 3).
  - reflexivity.
  - reflexivity.
  - repeat constructor; done.
  - repeat constructor; done.
  - lia.
  - reflexivity.
Defined.

(** C1, as stated, fails: after five closes in a row that are not logouts
    the tenant is not abandoned. The fifth close has scheduled a reconnect
    (a wait of 30000 ms and a provider open), a handle is registered and
    the counter holds 5. *)
Lemma attempt_ceiling_counterexample :
  let w4 := procesar entorno_t1 empresa_t1 (replicate 4 cierre_428)
              mundo_conectado in
  let w5 := procesar entorno_t1 empresa_t1 (replicate 5 cierre_428)
              mundo_conectado in
  efectos (connection_update entorno_t1 empresa_t1 cierre_428) w4 =
    [Esperar 30000; SockEnd 12%nat; ProviderOpen "t1"] ∧
  bots w5 !! "t1" = Some 15%nat ∧
  connectionAttempts w5 !! "t1" = Some 5 ∧
  ¬ (bots w5 !! "t1" = None ∧ connectionAttempts w5 !! "t1" = None).
Proof.
  cbv zeta. split_and!; try (vm_compute; reflexivity).
  intros [H _]. vm_compute in H. discriminate.
Qed.

(** C1, amended. Started with the counter reading 0 and with a provider
    that opens at every reconnect, each of the first five closes in a row
    that are not logouts schedules a reconnect (the [k]-th waits
    [backoff k] ms and opens the provider); after the fifth a handle is
    registered and the counter holds 5. It is the sixth such close that
    abandons the tenant: its handle and its counter are removed and no
    effect is performed, so no sixth reconnect is scheduled. *)
Theorem attempt_ceiling_amended env empresa w us u6 :
  (∀ t, provider_ok env t = true) →
  intentos w (id empresa) = 0 →
  Forall cierre_transitorio us →
  length us = 5%nat →
  cierre_transitorio u6 →
  let w5 := procesar env empresa us w in
  (∀ us1 u us2,
     us = us1 ++ u :: us2 →
     esperas (efectos (connection_update env empresa u)
                (procesar env empresa us1 w)) =
       [backoff (N.of_nat (length us1) + 1)] ∧
     aperturas (efectos (connection_update env empresa u)
                  (procesar env empresa us1 w)) = [id empresa]) ∧
  is_Some (bots w5 !! id empresa) ∧
  connectionAttempts w5 !! id empresa = Some 5 ∧
  ∃ w6,
    connection_update env empresa u6 w5 = (Ok tt, w6) ∧
    bots w6 !! id empresa = None ∧
    connectionAttempts w6 !! id empresa = None ∧
    efectos (connection_update env empresa u6) w5 = [].
Proof.
  intros Hok H0 Hus Hlen Hu6 w5. split_and!.
  - intros us1 u us2 ->.
    apply Forall_app in Hus as [Hus1 [Hu _]%Forall_cons].
    rewrite length_app in Hlen. simpl in Hlen.
    destruct (procesar_cierres env empresa us1 w Hok Hus1) as [Hi _].
    { rewrite H0. unfold MAX_RECONNECT_ATTEMPTS. lia. }
    destruct (cierre_paso env empresa u (procesar env empresa us1 w) Hok Hu)
      as (w' & _ & _ & _ & He & Ha).
    { rewrite Hi, H0. unfold MAX_RECONNECT_ATTEMPTS. lia. }
    rewrite He, Ha, Hi, H0. done.
  - destruct (procesar_cierres env empresa us w Hok Hus) as [_ Hh].
    { rewrite H0, Hlen. unfold MAX_RECONNECT_ATTEMPTS. lia. }
    apply Hh. by intros ->.
  - destruct (procesar_cierres env empresa us w Hok Hus) as [Hi Hh].
    { rewrite H0, Hlen. unfold MAX_RECONNECT_ATTEMPTS. lia. }
    destruct Hh as [_ [c Hc]]; [by intros ->|].
    fold w5 in Hi, Hc. rewrite H0, Hlen in Hi.
    unfold intentos in Hi. rewrite Hc in Hi. simpl in Hi.
    by rewrite Hc, Hi.
  - destruct (procesar_cierres env empresa us w Hok Hus) as [Hi _].
    { rewrite H0, Hlen. unfold MAX_RECONNECT_ATTEMPTS. lia. }
    fold w5 in Hi. rewrite H0, Hlen in Hi.
    destruct Hu6 as (Hc6 & _ & Hq6).
    pose proof (cierre_agotado env empresa u6 w5 Hc6 Hq6) as Heq.
    eexists. split_and!.
    + apply Heq. rewrite Hi. unfold MAX_RECONNECT_ATTEMPTS. lia.
    + simpl. apply lookup_delete_eq.
    + simpl. apply lookup_delete_eq.
    + apply efectos_app. rewrite Heq; [by rewrite app_nil_r|].
      rewrite Hi. unfold MAX_RECONNECT_ATTEMPTS. lia.
Qed.

Lemma attempt_ceiling_amended_witness :
  let w5 := procesar entorno_t1 empresa_t1 (replicate 5 cierre_428)
              mundo_conectado in
  (∀ us1 u us2,
     replicate 5 cierre_428 = us1 ++ u :: us2 →
     esperas (efectos (connection_update entorno_t1 empresa_t1 u)
                (procesar entorno_t1 empresa_t1 us1 mundo_conectado)) =
       [backoff (N.of_nat (length us1) + 1)] ∧
     aperturas (efectos (connection_update entorno_t1 empresa_t1 u)
                  (procesar entorno_t1 empresa_t1 us1 mundo_conectado)) =
       [id empresa_t1]) ∧
  is_Some (bots w5 !! id empresa_t1) ∧
  connectionAttempts w5 !! id empresa_t1 = Some 5 ∧
  ∃ w6,
    connection_update entorno_t1 empresa_t1 cierre_428 w5 = (Ok tt, w6) ∧
    bots w6 !! id empresa_t1 = None ∧
    connectionAttempts w6 !! id empresa_t1 = None ∧
    efectos (connection_update entorno_t1 empresa_t1 cierre_428) w5 = [].
Proof.
  apply (attempt_ceiling_amended entorno_t1 empresa_t1 mundo_conectado
           (replicate 5 cierre_428) cierre_428).
  - reflexivity.
  - reflexivity.
  - repeat constructor; done.
  - reflexivity.
  - repeat constructor; done.
Defined.

(** ** Sending and dispatching *)

Section Envios.
Context (env : Env).

(** [enviarMensaje] performs one send and swallows its failure. *)
Lemma enviarMensaje_traga sock to text w :
  enviarMensaje env sock to text w = (Ok tt, emit (SendMessage sock to text) w).
Proof.
  unfold enviarMensaje, sendMessage, try_catch, ret.
  by destruct (send_ok env (tick w)).
Qed.

(** The local fallback never throws and sends at most once. *)
Lemma procesarMensajeLocal_ok empresaId data w :
  (procesarMensajeLocal env empresaId data w).1 = Ok tt ∧
  (length (efectos (procesarMensajeLocal env empresaId data) w) ≤ 1)%nat.
Proof.
  unfold efectos, procesarMensajeLocal, bind, gets, ret.
  destruct (bots w !! empresaId) as [sock|];
    [destruct (startsWith "!" (mensaje data))|];
    rewrite ?enviarMensaje_traga; cbn [fst snd trace emit];
    rewrite ?drop_all, ?drop_app_length; split; simpl; done || lia.
Qed.

Lemma procesarMensajeLocal_crece empresaId data w :
  ∃ extra, trace (procesarMensajeLocal env empresaId data w).2 = trace w ++ extra.
Proof.
  unfold procesarMensajeLocal, bind, gets, ret.
  destruct (bots w !! empresaId) as [sock|];
    [destruct (startsWith "!" (mensaje data))|];
    rewrite ?enviarMensaje_traga; cbn [fst snd trace emit];
    eauto; by exists []; rewrite app_nil_r.
Qed.

(** A [catch] that only logs lets no exception through. *)
Lemma try_catch_log_no_lanza (body : M unit) w e :
  (try_catch body (λ _, ret tt) w).1 ≠ Throw e.
Proof. unfold try_catch. by destruct (body w) as [[| |] ?]. Qed.
End Envios.

(** C7. Fallback safety: for a message that is dispatched (not from self,
    non-empty text) whose webhook POST fails (time-out, network error or a
    status that is not 2xx), the handler of [messages.upsert] posts once,
    then runs [procesarMensajeLocal] exactly once on that message, and
    returns normally: its result is never an exception, whatever happens to
    the send inside the fallback. The fallback itself sends at most once. *)
Theorem fallback_safety env empresa m resto w :
  fromMe m = false →
  truthy (conversation m) = true →
  post_resolves (post_outcome env (tick w)) = false →
  let data := datos_de env empresa m w in
  let w1 := emit (AxiosPost (webhook_de env empresa) data) w in
  messages_upsert env empresa (m :: resto) w =
    (Ok tt, (procesarMensajeLocal env (id empresa) data w1).2) ∧
  efectos (messages_upsert env empresa (m :: resto)) w =
    AxiosPost (webhook_de env empresa) data ::
    efectos (procesarMensajeLocal env (id empresa) data) w1 ∧
  (length (efectos (procesarMensajeLocal env (id empresa) data) w1) ≤ 1)%nat ∧
  (∀ e, (messages_upsert env empresa (m :: resto) w).1 ≠ Throw e).
Proof.
  intros Hme Htxt Hpost data w1.
  destruct (procesarMensajeLocal_ok env (id empresa) data w1) as [Hok Hlen].
  assert (messages_upsert env empresa (m :: resto) w =
          (Ok tt, (procesarMensajeLocal env (id empresa) data w1).2)) as Heq.
  { unfold messages_upsert. rewrite Hme, Htxt. simpl.
    unfold enviarMensajeAN8N, axios_post, try_catch, bind, gets. simpl.
    rewrite Hpost. fold (webhook_de env empresa). fold (datos_de env empresa m w).
    fold data. fold w1.
    destruct (procesarMensajeLocal env (id empresa) data w1) as [o w2].
    simpl in Hok. by rewrite Hok. }
  split_and!; [done| |done|by rewrite Heq].
  pose proof (procesarMensajeLocal_crece env (id empresa) data w1) as [x Hx].
  rewrite (efectos_app (procesarMensajeLocal env (id empresa) data) w1 x Hx).
  apply efectos_app. rewrite Heq. simpl. rewrite Hx. unfold w1. simpl.
  by rewrite <-app_assoc.
Qed.

Lemma fallback_safety_witness :
  let data := datos_de entorno_t1 empresa_t1 mensaje_ayuda mundo_conectado in
  let w1 := emit (AxiosPost (webhook_de entorno_t1 empresa_t1) data)
              mundo_conectado in
  messages_upsert entorno_t1 empresa_t1 (mensaje_ayuda :: []) mundo_conectado =
    (Ok tt, (procesarMensajeLocal entorno_t1 (id empresa_t1) data w1).2) ∧
  efectos (messages_upsert entorno_t1 empresa_t1 (mensaje_ayuda :: []))
    mundo_conectado =
    AxiosPost (webhook_de entorno_t1 empresa_t1) data ::
    efectos (procesarMensajeLocal entorno_t1 (id empresa_t1) data) w1 ∧
  (length (efectos (procesarMensajeLocal entorno_t1 (id empresa_t1) data) w1)
   ≤ 1)%nat ∧
  (∀ e, (messages_upsert entorno_t1 empresa_t1 (mensaje_ayuda :: [])
           mundo_conectado).1 ≠ Throw e).
Proof.
  apply (fallback_safety entorno_t1 empresa_t1 mensaje_ayuda [] mundo_conectado);
    reflexivity.
Defined.

(** With a live handle both send operations perform exactly one send and
    answer with [success = true], whether or not that send failed. *)
Lemma envio_siempre_exitoso env empresaId sock to text w :
  bots w !! empresaId = Some sock →
  enviarMensajePorEmpresaId env empresaId to text w =
    (Ok {| success := true;
           message := Some "Mensaje enviado correctamente";
           error := None |},
     emit (SendMessage sock to text) w) ∧
  enviarRespuestaDesdeN8N env empresaId to text w =
    (Ok {| success := true;
           message := Some "Respuesta enviada correctamente desde N8N";
           error := None |},
     emit (SendMessage sock to text) w).
Proof.
  intros Hb. unfold enviarMensajePorEmpresaId, enviarRespuestaDesdeN8N.
  unfold try_catch, bind, gets. rewrite Hb, enviarMensaje_traga. done.
Qed.

(** C8. SendError reporting. The claim asks that a failed outbound send be
    reported as a failure to the caller of [enviarMensajePorEmpresaId] and
    of [enviarRespuestaDesdeN8N], without a retry. Here the tenant [t1] has
    a live handle and the socket send fails: there is indeed a single send
    and no retry, but both operations return [success = true] with their
    message of success, because [enviarMensaje] swallows the error. *)
Theorem send_error_reported_as_success :
  bots mundo_conectado !! "t1" = Some 0%nat ∧
  send_ok entorno_t1 (tick mundo_conectado) = false ∧
  enviarMensajePorEmpresaId entorno_t1 "t1" "51987654321@s.whatsapp.net" "hello"
    mundo_conectado =
    (Ok {| success := true;
           message := Some "Mensaje enviado correctamente";
           error := None |},
     emit (SendMessage 0%nat "51987654321@s.whatsapp.net" "hello")
       mundo_conectado) ∧
  enviarRespuestaDesdeN8N entorno_t1 "t1" "51987654321@s.whatsapp.net" "hello"
    mundo_conectado =
    (Ok {| success := true;
           message := Some "Respuesta enviada correctamente desde N8N";
           error := None |},
     emit (SendMessage 0%nat "51987654321@s.whatsapp.net" "hello")
       mundo_conectado).
Proof.
  split_and!; [reflexivity..| |];
    apply (envio_siempre_exitoso entorno_t1 "t1" 0%nat); reflexivity.
Qed.

(** * Further properties of the code *)

(** ** Coming to an end *)

Lemma termina_ret {A} (a : A) : termina (ret a).
Proof. by intros w. Qed.

Lemma termina_gets {A} (f : World → A) : termina (gets f).
Proof. by intros w. Qed.

Lemma termina_modify f : termina (modify f).
Proof. by intros w. Qed.

Lemma termina_bind {A B} (m : M A) (k : A → M B) :
  termina m → (∀ a, termina (k a)) → termina (bind m k).
Proof.
  intros Hm Hk w. specialize (Hm w). unfold bind.
  destruct (m w) as [[a|e|] w']; simpl in *; [apply Hk|done..].
Qed.

Lemma termina_try_catch {A} (m : M A) (h : Error → M A) :
  termina m → (∀ e, termina (h e)) → termina (try_catch m h).
Proof.
  intros Hm Hh w. specialize (Hm w). unfold try_catch.
  destruct (m w) as [[a|e|] w']; simpl in *; [done|apply Hh|done].
Qed.

Lemma termina_when b m : termina m → termina (when b m).
Proof. destruct b; [done|intros _; apply termina_ret]. Qed.

Lemma termina_forEach {A} (f : A → M unit) l :
  (∀ x, termina (f x)) → termina (forEach f l).
Proof.
  intros Hf. induction l as [|x l IH]; [apply termina_ret|].
  simpl. by apply termina_bind.
Qed.

(** A [try] whose [catch] only logs returns normally as soon as its body
    comes to an end. *)
Lemma try_catch_log_ok (body : M unit) w :
  termina body → (try_catch body (λ _, ret tt) w).1 = Ok tt.
Proof.
  intros Hb. specialize (Hb w). unfold try_catch.
  by destruct (body w) as [[[]| |] ?].
Qed.

(** ** More on pruning *)

Section LimpiezaGeneral.
Context (env : Env).

Lemma unlinkSync_termina dir archivo : termina (unlinkSync env dir archivo).
Proof.
  intros w. unfold unlinkSync. destruct (sessions w) as [dirs|]; [|done].
  destruct (dirs !! dir); [|done]. by destruct (_ && _).
Qed.

Lemma limpiarSesionesAntiguas_ok w : (limpiarSesionesAntiguas env w).1 = Ok tt.
Proof.
  apply try_catch_log_ok.
  apply termina_bind; [apply termina_gets|]. intros hay.
  apply termina_when, termina_bind; [apply termina_ret|]. intros empresas.
  apply termina_forEach. intros empresa. unfold limpiarEmpresa.
  apply termina_bind; [apply termina_gets|]. intros hayDir.
  apply termina_when, termina_bind.
  { intros w'. unfold readdirSync. by destruct (_ ≫= _). }
  intros archivos. apply termina_forEach. intros archivo.
  apply termina_when, unlinkSync_termina.
Qed.

(** What every unlink of a session file in a listed tenant directory keeps,
    pruning keeps. *)
Lemma limpiarSesionesAntiguas_inv (P : World → Prop) :
  (∀ empresa archivo,
     empresa ∈ empresasData env →
     startsWith "session-" archivo = true →
     conserva P (unlinkSync env (id empresa) archivo)) →
  conserva P (limpiarSesionesAntiguas env).
Proof.
  intros Hun. unfold limpiarSesionesAntiguas.
  apply conserva_try_catch; [|intros; apply conserva_ret].
  apply conserva_bind; [apply conserva_gets|]. intros hay.
  apply conserva_when. intros _.
  change (conserva P (forEach (limpiarEmpresa env) (empresasData env))).
  apply conserva_forEach. intros empresa He. unfold limpiarEmpresa.
  apply conserva_bind; [apply conserva_gets|]. intros hayDir.
  apply conserva_when. intros _.
  apply conserva_bind.
  { intros w Hw. unfold readdirSync. by destruct (_ ≫= _). }
  intros archivos. apply conserva_forEach. intros archivo _.
  apply conserva_when. intros [Hs _]%andb_true_iff. by apply Hun.
Qed.

(** One unlink in one of the directories [dirs]: the registry and the
    counters stay, a directory loses at most entries, the directories
    outside [dirs] stay. *)
Lemma unlinkSync_encoge w0 (dirs : list string) dir archivo :
  dir ∈ dirs →
  conserva (λ w, bots w = bots w0 ∧
                 connectionAttempts w = connectionAttempts w0 ∧
                 (∀ d l', listado w d = Some l' →
                          ∃ l, listado w0 d = Some l ∧ l' `sublist_of` l) ∧
                 (∀ d, d ∉ dirs → listado w d = listado w0 d))
           (unlinkSync env dir archivo).
Proof.
  intros Hdir w (Hb & Hc & Hsub & Hotros). unfold unlinkSync.
  destruct (sessions w) as [ds|] eqn:Hs; [|done].
  destruct (ds !! dir) as [archivos|] eqn:Hd; [|done].
  destruct (_ && _); [|done].
  simpl. split_and!; [done..| |].
  - intros d l'. unfold listado at 1. simpl.
    destruct (decide (dir = d)) as [<-|Hne].
    + rewrite lookup_insert_eq. intros [= <-].
      destruct (Hsub dir archivos) as (l & Hl & Hll).
      { unfold listado. by rewrite Hs. }
      exists l. split; [done|]. etrans; [apply sublist_filter|done].
    + rewrite lookup_insert_ne by done. intros Hl'. apply Hsub.
      unfold listado. by rewrite Hs.
  - intros d Hne. rewrite <-Hotros by done. unfold listado. simpl.
    rewrite Hs. simpl. rewrite lookup_insert_ne; [done|]. by intros ->.
Qed.

(** The delete loop over a directory in which nothing is to be deleted. *)
Lemma eliminar_nada activas dir archivos w :
  (∀ a, a ∈ archivos → se_elimina activas a = false) →
  forEach (λ archivo, when (se_elimina activas archivo)
                        (unlinkSync env dir archivo)) archivos w = (Ok tt, w).
Proof.
  induction archivos as [|a archivos IH]; intros Hno; [done|].
  simpl. unfold bind. rewrite (Hno a) by by left. simpl.
  apply IH. intros b Hb. apply Hno. by right.
Qed.

Lemma limpiarEmpresa_nada empresa w :
  (∀ l a, listado w (id empresa) = Some l → a ∈ l →
          se_elimina (sesionesActivas l) a = false) →
  limpiarEmpresa env empresa w = (Ok tt, w).
Proof.
  intros Hno. unfold limpiarEmpresa, existsSync, readdirSync.
  unfold bind, gets. simpl.
  destruct (listado w (id empresa)) as [archivos|] eqn:Hl;
    pose proof Hl as Hl2; unfold listado in Hl2; rewrite Hl2.
  - rewrite bool_decide_eq_true_2 by eauto. simpl. rewrite Hl2.
    apply eliminar_nada. intros a Ha. by apply (Hno archivos).
  - by rewrite bool_decide_eq_false_2 by by intros [].
Qed.

Lemma limpiarSesionesAntiguas_nada w :
  (∀ empresa l a,
     empresa ∈ empresasData env → listado w (id empresa) = Some l → a ∈ l →
     se_elimina (sesionesActivas l) a = false) →
  limpiarSesionesAntiguas env w = (Ok tt, w).
Proof.
  intros Hno. unfold limpiarSesionesAntiguas, existsSync_sessionsDir,
    obtenerEmpresas, try_catch, bind, gets, ret. simpl.
  destruct (bool_decide _); [|done]. simpl.
  assert (forEach (limpiarEmpresa env) (empresasData env) w = (Ok tt, w)) as ->;
    [|done].
  revert Hno. generalize (empresasData env). intros empresas.
  induction empresas as [|e empresas IH]; intros Hno; [done|].
  simpl. unfold bind. rewrite limpiarEmpresa_nada.
  - apply IH. intros e' l a He'. apply Hno. by right.
  - intros l a. apply Hno. by left.
Qed.
End LimpiezaGeneral.

(** After pruning, nothing of a directory is to be deleted. *)
Lemma podar_estable archivos a :
  NoDup archivos → a ∈ podar archivos →
  se_elimina (sesionesActivas (podar archivos)) a = false.
Proof.
  intros Hnd Ha. rewrite <-(podar_idemp archivos Hnd) in Ha.
  unfold podar at 1 in Ha. by apply list_elem_of_filter in Ha as [? _].
Qed.


Lemma pruning_bots env w :
  bots (limpiarSesionesAntiguas env w).2 = bots w.
Proof.
  apply (limpiarSesionesAntiguas_inv env (λ w', bots w' = bots w)); [|done].
  intros e a _ _ w' Hw'. unfold unlinkSync.
  destruct (sessions w') as [ds|]; [|done].
  destruct (ds !! id e); [|done]. by destruct (_ && _).
Qed.

(** X1. Pruning twice is pruning once: when no unlink fails, a second
    [limpiarSesionesAntiguas] right after the first returns normally and
    changes nothing, not even the trace (it unlinks no file). *)
Theorem pruning_twice_is_once env w :
  (∀ dir archivo, unlink_ok env dir archivo = true) →
  (∀ e l, e ∈ empresasData env → listado w (id e) = Some l → NoDup l) →
  limpiarSesionesAntiguas env (limpiarSesionesAntiguas env w).2 =
    (Ok tt, (limpiarSesionesAntiguas env w).2).
Proof.
  intros Hok Hnd.
  destruct (limpiarSesionesAntiguas_exacto env Hok w Hnd) as (w' & -> & Hw').
  simpl. apply limpiarSesionesAntiguas_nada. intros e l a He Hl Ha.
  rewrite Hw', decide_True in Hl by by apply list_elem_of_fmap_2.
  destruct (listado w (id e)) as [l0|] eqn:E; [|done].
  simpl in Hl. injection Hl as <-. apply podar_estable; [|done].
  by apply (Hnd e).
Qed.

Lemma pruning_twice_is_once_witness :
  limpiarSesionesAntiguas entorno_t1 (limpiarSesionesAntiguas entorno_t1 mundo_t1).2 =
    (Ok tt, (limpiarSesionesAntiguas entorno_t1 mundo_t1).2).
Proof.
  apply (pruning_twice_is_once entorno_t1 mundo_t1).
  - reflexivity.
  - intros e l ->%list_elem_of_singleton [= <-]. compute_done.
Defined.

(** X2. Pruning is safe whatever the file system does: even when unlinks
    fail, [limpiarSesionesAntiguas] returns normally, leaves the registry
    and the attempt counters as they were, leaves every directory with a
    sublist of what it held (no file is added, moved or reordered), and
    does not touch the directory of an id that is not in the tenant
    list. *)
Theorem pruning_only_removes env w :
  let w' := (limpiarSesionesAntiguas env w).2 in
  (limpiarSesionesAntiguas env w).1 = Ok tt ∧
  bots w' = bots w ∧
  connectionAttempts w' = connectionAttempts w ∧
  (∀ d l', listado w' d = Some l' →
           ∃ l, listado w d = Some l ∧ l' `sublist_of` l) ∧
  (∀ d, d ∉ id <$> empresasData env → listado w' d = listado w d).
Proof.
  split; [apply limpiarSesionesAntiguas_ok|].
  apply (limpiarSesionesAntiguas_inv env
           (λ w', bots w' = bots w ∧
                  connectionAttempts w' = connectionAttempts w ∧
                  (∀ d l', listado w' d = Some l' →
                           ∃ l, listado w d = Some l ∧ l' `sublist_of` l) ∧
                  (∀ d, d ∉ id <$> empresasData env →
                        listado w' d = listado w d))).
  - intros e a He _. apply unlinkSync_encoge. by apply list_elem_of_fmap_2.
  - split_and!; [done..| |done]. intros d l' Hl. eauto.
Qed.



(** ** Invariants of starting and reconnecting *)

(** A set of worlds that is closed under the elementary steps [iniciarBot]
    and the handler of [connection.update] take for one tenant is closed
    under them. *)
Section Invariante.
Context (env : Env) (empresa : Empresa) (P : World → Prop).
Hypothesis P_emit : ∀ ef w, P w → P (emit ef w).
Hypothesis P_set : ∀ s w, P w → P (with_bots <[id empresa := s]> w).
Hypothesis P_del : ∀ w, P w → P (with_bots (delete (id empresa)) w).
Hypothesis P_cuenta :
  ∀ a w, P w → a ≤ MAX_RECONNECT_ATTEMPTS →
         P (with_attempts <[id empresa := a]> w).
Hypothesis P_olvida : ∀ w, P w → P (with_attempts (delete (id empresa)) w).
Hypothesis P_mkdir :
  ∀ w, P w → listado w (id empresa) = None →
       P (with_sessions (λ s, Some (<[id empresa := []]> (default ∅ s))) w).

Lemma abrir_inv :
  conserva P
    (let* hay := existsSync (id empresa) in
     when (negb hay) (mkdirSync (id empresa)) >>
     let* sock := makeWASocket env (id empresa) in
     modify (with_bots <[id empresa := sock]>)).
Proof.
  intros w Hw. unfold existsSync, mkdirSync, makeWASocket, bind at 1, gets.
  fold (listado w (id empresa)).
  destruct (listado w (id empresa)) as [l|] eqn:Hl.
  - rewrite bool_decide_eq_true_2 by eauto. unfold when, negb, bind, ret, modify.
    destruct (provider_ok env (tick w)); simpl; auto.
  - rewrite bool_decide_eq_false_2 by by intros [].
    unfold when, negb, bind, ret, modify.
    match goal with |- context [provider_ok env ?t] =>
      destruct (provider_ok env t) end; simpl; auto.
Qed.

Lemma iniciarBot_fuel_inv fuel : conserva P (iniciarBot_fuel env fuel empresa).
Proof.
  induction fuel as [|fuel IH]; [by intros w|].
  simpl. apply conserva_bind; [apply conserva_gets|]. intros ya.
  destruct ya; [apply conserva_ret|].
  apply conserva_try_catch; [apply abrir_inv|]. intros _ w Hw.
  unfold bind at 1, gets.
  destruct (N.leb_spec (intentos w (id empresa) + 1) MAX_RECONNECT_ATTEMPTS)
    as [Hle|Hgt]; [|done].
  unfold bind at 1, modify. unfold bind at 1, esperar, modify.
  apply IH. auto.
Qed.

Lemma iniciarBot_inv : conserva P (iniciarBot env empresa).
Proof. apply iniciarBot_fuel_inv. Qed.

Lemma reconectar_inv : conserva P (reconectar env empresa).
Proof.
  unfold reconectar.
  apply conserva_bind; [apply conserva_gets|]. intros ya.
  apply conserva_bind; [|intros _; apply iniciarBot_inv].
  apply conserva_when. intros _.
  apply conserva_bind; [apply conserva_gets|]. intros [oldSock|];
    [|apply conserva_ret].
  apply conserva_bind; [|intros _; by apply conserva_modify].
  apply conserva_modify. auto.
Qed.

Lemma tras_qr_inv u w : P w → P (tras_qr empresa u w).
Proof.
  intros Hw. unfold tras_qr. destruct (truthy (qr u)); [|done].
  apply P_cuenta; [auto|done].
Qed.

Lemma connection_update_inv u : conserva P (connection_update env empresa u).
Proof.
  intros w Hw. pose proof (tras_qr_inv u w Hw) as Hq.
  destruct (connection u) as [[| |]|] eqn:Hc.
  - rewrite connection_update_close by done. cbv zeta.
    destruct (N.leb_spec (intentos (tras_qr empresa u w) (id empresa) + 1)
                MAX_RECONNECT_ATTEMPTS) as [Hle|Hgt].
    + destruct (negb _); simpl.
      * apply (conserva_try_catch P); [|intros; apply conserva_ret|auto].
        apply conserva_bind; [|intros _; apply reconectar_inv].
        apply conserva_modify. auto.
      * destruct (_ <? _); simpl; auto.
    + rewrite andb_false_r. destruct (_ <? _); simpl; auto.
  - rewrite connection_update_open by done. simpl. auto.
  - unfold connection_update, tras_qr in *. rewrite Hc.
    by destruct (truthy (qr u)).
  - unfold connection_update, tras_qr in *. rewrite Hc.
    by destruct (truthy (qr u)).
Qed.
End Invariante.



(** X5. The stored attempt counter never exceeds the maximum: if no
    counter is above 5, none is after [iniciarBot] or after the handler of
    [connection.update] has processed any sequence of updates, whatever
    the provider does. *)
Theorem counter_never_exceeds_max env empresa us w :
  (∀ k, intentos w k ≤ MAX_RECONNECT_ATTEMPTS) →
  (∀ k, intentos (procesar env empresa us w) k ≤ MAX_RECONNECT_ATTEMPTS) ∧
  (∀ k, intentos (iniciarBot env empresa w).2 k ≤ MAX_RECONNECT_ATTEMPTS).
Proof.
  set (P := λ w' : World, ∀ k, intentos w' k ≤ MAX_RECONNECT_ATTEMPTS).
  assert (∀ ef w', P w' → P (emit ef w')) as P_emit by done.
  assert (∀ s w', P w' → P (with_bots <[id empresa := s]> w')) as P_set by done.
  assert (∀ w', P w' → P (with_bots (delete (id empresa)) w')) as P_del by done.
  assert (∀ a w', P w' → a ≤ MAX_RECONNECT_ATTEMPTS →
                  P (with_attempts <[id empresa := a]> w')) as P_cuenta.
  { intros a w' Hw' Ha k. unfold intentos. simpl.
    destruct (decide (id empresa = k)) as [<-|Hne].
    - by rewrite lookup_insert_eq.
    - rewrite lookup_insert_ne by done. apply Hw'. }
  assert (∀ w', P w' → P (with_attempts (delete (id empresa)) w')) as P_olvida.
  { intros w' Hw' k. unfold intentos. simpl.
    destruct (decide (id empresa = k)) as [<-|Hne].
    - by rewrite lookup_delete_eq.
    - rewrite lookup_delete_ne by done. apply Hw'. }
  assert (∀ w', P w' → listado w' (id empresa) = None →
                P (with_sessions
                     (λ s, Some (<[id empresa := []]> (default ∅ s))) w'))
    as P_mkdir by done.
  intros Hw. split.
  - revert w Hw. induction us as [|u us IH]; intros w Hw; [done|].
    unfold procesar. simpl. apply IH.
    by apply (connection_update_inv env empresa P).
  - by apply (iniciarBot_inv env empresa P).
Qed.

Lemma counter_never_exceeds_max_witness :
  (∀ k, intentos (procesar entorno_caido empresa_t1 (replicate 7 cierre_428)
                    mundo_conectado) k ≤ MAX_RECONNECT_ATTEMPTS) ∧
  (∀ k, intentos (iniciarBot entorno_caido empresa_t1 mundo_conectado).2 k
        ≤ MAX_RECONNECT_ATTEMPTS).
Proof.
  apply (counter_never_exceeds_max entorno_caido empresa_t1
           (replicate 7 cierre_428) mundo_conectado).
  intros k. unfold intentos. simpl. rewrite lookup_empty. done.
Defined.

(** ** Open failures *)

Lemma esperas_app l k : esperas (l ++ k) = esperas l ++ esperas k.
Proof. apply omap_app. Qed.

Lemma aperturas_app l k : aperturas (l ++ k) = aperturas l ++ aperturas k.
Proof. apply omap_app. Qed.

Lemma esperas_espera ms l : esperas (Esperar ms :: l) = ms :: esperas l.
Proof. done. Qed.

Lemma aperturas_espera ms l : aperturas (Esperar ms :: l) = aperturas l.
Proof. done. Qed.

Section AperturaFallida.
Context (env : Env) (empresa : Empresa).
Hypothesis nunca_abre : ∀ t, provider_ok env t = false.

(** The [try] of [iniciarBot] when the provider does not open. *)
Lemma abrir_falla w :
  ∃ w1 pre,
    (let* hay := existsSync (id empresa) in
     when (negb hay) (mkdirSync (id empresa)) >>
     let* sock := makeWASocket env (id empresa) in
     modify (with_bots <[id empresa := sock]>)) w = (Throw ProviderError, w1) ∧
    bots w1 = bots w ∧
    connectionAttempts w1 = connectionAttempts w ∧
    trace w1 = trace w ++ pre ∧
    esperas pre = [] ∧
    aperturas pre = [id empresa].
Proof.
  unfold existsSync, mkdirSync, makeWASocket, bind, gets, when, modify, ret.
  destruct (bool_decide _); simpl; rewrite nunca_abre; simpl;
    eexists _, _; split_and!; try done; simpl; by rewrite <-?app_assoc.
Qed.

Lemma iniciarBot_fuel_falla fuel :
  ∀ w,
    bots w !! id empresa = None →
    (N.to_nat (5 - intentos w (id empresa)) < fuel)%nat →
    ∃ w' extra,
      iniciarBot_fuel env fuel empresa w = (Ok tt, w') ∧
      bots w' = bots w ∧
      trace w' = trace w ++ extra ∧
      esperas extra =
        replicate (N.to_nat (5 - intentos w (id empresa))) RECONNECT_INTERVAL ∧
      aperturas extra =
        replicate (S (N.to_nat (5 - intentos w (id empresa)))) (id empresa) ∧
      connectionAttempts w' =
        (if intentos w (id empresa) <? 5
         then <[id empresa := 5]> (connectionAttempts w)
         else connectionAttempts w).
Proof.
  induction fuel as [|fuel IH]; intros w Hb Hfuel; [lia|].
  simpl. unfold bind at 1, gets at 1.
  rewrite Hb, bool_decide_eq_false_2 by by intros [].
  destruct (abrir_falla w) as (w1 & pre & Hrun & Hb1 & Hc1 & Ht1 & He1 & Ha1).
  unfold try_catch. rewrite Hrun. unfold bind at 1, gets at 1.
  assert (intentos w1 (id empresa) = intentos w (id empresa)) as Hi1
    by (unfold intentos; by rewrite Hc1).
  rewrite Hi1. set (c := intentos w (id empresa)) in *.
  unfold MAX_RECONNECT_ATTEMPTS.
  destruct (N.leb_spec (c + 1) 5) as [Hle|Hgt].
  - unfold bind at 1, modify. unfold bind at 1, esperar, modify.
    set (w2 := emit _ _).
    assert (intentos w2 (id empresa) = c + 1) as Hi2.
    { unfold intentos, w2. simpl. by rewrite lookup_insert_eq. }
    destruct (IH w2) as (w' & extra & Hrun' & Hb' & Ht' & He' & Ha' & Hc').
    { unfold w2. simpl. by rewrite Hb1. }
    { rewrite Hi2. lia. }
    rewrite Hi2 in He', Ha', Hc'.
    exists w', (pre ++ Esperar RECONNECT_INTERVAL :: extra).
    replace (N.to_nat (5 - c)) with (S (N.to_nat (5 - (c + 1)))) by lia.
    split_and!.
    + done.
    + rewrite Hb'. unfold w2. simpl. done.
    + rewrite Ht'. unfold w2. simpl. rewrite Ht1. by rewrite <-!app_assoc.
    + by rewrite esperas_app, He1, esperas_espera, He'.
    + by rewrite aperturas_app, Ha1, aperturas_espera, Ha'.
    + rewrite Hc'. unfold w2. simpl. rewrite Hc1.
      assert ((c <? 5) = true) as -> by (apply N.ltb_lt; lia).
      destruct (N.ltb_spec (c + 1) 5); [by rewrite insert_insert_eq|].
      by replace (c + 1) with 5 by lia.
  - exists w1, pre.
    replace (N.to_nat (5 - c)) with 0%nat by lia.
    assert ((c <? 5) = false) as -> by (apply N.ltb_ge; lia).
    done.
Qed.
End AperturaFallida.



(** ** Starting tenants *)

Lemma iniciarBot_fuel_con_directorio env empresa fuel w :
  (∀ t, provider_ok env t = true) →
  bots w !! id empresa = None →
  is_Some (listado w (id empresa)) →
  iniciarBot_fuel env (S fuel) empresa w =
    (Ok tt, with_bots <[id empresa := tick w]>
              (emit (ProviderOpen (id empresa)) w)).
Proof.
  intros Hok Hb Hl. simpl.
  unfold existsSync, mkdirSync, makeWASocket. desplegar.
  rewrite Hb, bool_decide_eq_false_2 by by intros []. simpl.
  fold (listado w (id empresa)).
  rewrite bool_decide_eq_true_2 by done. simpl. by rewrite Hok.
Qed.

(** X7. A start that opens: when the session directory of the tenant
    exists, the provider opens and the tenant has no handle, [iniciarBot]
    returns normally with a handle registered for the tenant and no other
    change to the registry; its only effect is one provider open (no
    directory is made and nothing is waited for); the session store and the
    attempt counter are left as they were: a start that succeeds does not
    clear an earlier count of failures. *)
Theorem start_registers_handle env empresa w :
  (∀ t, provider_ok env t = true) →
  bots w !! id empresa = None →
  is_Some (listado w (id empresa)) →
  let w' := (iniciarBot env empresa w).2 in
  (iniciarBot env empresa w).1 = Ok tt ∧
  (∃ s, bots w' = <[id empresa := s]> (bots w)) ∧
  connectionAttempts w' = connectionAttempts w ∧
  sessions w' = sessions w ∧
  efectos (iniciarBot env empresa) w = [ProviderOpen (id empresa)].
Proof.
  intros Hok Hb Hl w'.
  pose proof (iniciarBot_fuel_con_directorio env empresa 5 w Hok Hb Hl) as Hrun.
  unfold w', iniciarBot.
  rewrite (efectos_app _ _ [ProviderOpen (id empresa)]) by by rewrite Hrun.
  rewrite Hrun. simpl. split_and!; eauto.
Qed.

Lemma start_registers_handle_witness :
  let w' := (iniciarBot entorno_t1 empresa_t1 mundo_t1).2 in
  (iniciarBot entorno_t1 empresa_t1 mundo_t1).1 = Ok tt ∧
  (∃ s, bots w' = <[id empresa_t1 := s]> (bots mundo_t1)) ∧
  connectionAttempts w' = connectionAttempts mundo_t1 ∧
  sessions w' = sessions mundo_t1 ∧
  efectos (iniciarBot entorno_t1 empresa_t1) mundo_t1 =
    [ProviderOpen (id empresa_t1)].
Proof.
  apply (start_registers_handle entorno_t1 empresa_t1 mundo_t1).
  - reflexivity.
  - reflexivity.
  - vm_compute. eauto.
Defined.

Lemma find_ninguno {A} (f : A → bool) (l : list A) :
  (∀ x, x ∈ l → f x = false) → find f l = None.
Proof.
  induction l as [|x l IH]; intros H; [done|]. simpl.
  rewrite (H x) by by left. apply IH. intros y Hy. apply H. by right.
Qed.

(** X8. Starting a tenant that is not listed: when no tenant of
    [empresasData] has the id, [iniciarBotPorEmpresaId] answers with the
    error [Empresa no encontrada] and changes nothing; in particular it
    opens no provider connection. *)
Theorem start_of_unknown_tenant env empresaId w :
  (∀ e, e ∈ empresasData env → id e ≠ empresaId) →
  iniciarBotPorEmpresaId env empresaId w =
    (Ok {| inicio_message := None;
           inicio_error := Some "Empresa no encontrada" |}, w).
Proof.
  intros Hno. unfold iniciarBotPorEmpresaId, obtenerEmpresas, try_catch, bind, ret.
  rewrite find_ninguno; [done|].
  intros e He. apply bool_decide_eq_false. by apply Hno.
Qed.

Lemma start_of_unknown_tenant_witness :
  iniciarBotPorEmpresaId entorno_t1 "t2" mundo_t1 =
    (Ok {| inicio_message := None;
           inicio_error := Some "Empresa no encontrada" |}, mundo_t1).
Proof.
  apply (start_of_unknown_tenant entorno_t1 "t2" mundo_t1).
  intros e ->%list_elem_of_singleton. discriminate.
Defined.

(** X9. [iniciarBotPorEmpresaId] reports a start even when nothing was
    started: for a listed tenant without handle and a provider that never
    opens, it answers [Bot iniciado para <nombre>], and afterwards the
    tenant still has no handle (its status reads inactive). No error of
    the open reaches the caller. *)
Theorem start_reported_though_open_failed env empresaId empresa w :
  (∀ t, provider_ok env t = false) →
  find (λ e, bool_decide (id e = empresaId)) (empresasData env) = Some empresa →
  bots w !! empresaId = None →
  let w' := (iniciarBotPorEmpresaId env empresaId w).2 in
  (iniciarBotPorEmpresaId env empresaId w).1 =
    Ok {| inicio_message := Some ("Bot iniciado para " +:+ nombre empresa);
          inicio_error := None |} ∧
  bots w' !! empresaId = None ∧
  activo (obtenerEstadoBot empresaId w') = false.
Proof.
  intros Hno Hfind Hb w'.
  assert (id empresa = empresaId) as Hid.
  { apply find_some in Hfind as [_ H]. by apply bool_decide_eq_true in H. }
  rewrite <-Hid in Hb.
  destruct (iniciarBot_fuel_falla env empresa Hno 6 w Hb)
    as (w1 & extra & Hrun & Hb1 & _); [lia|].
  assert (iniciarBotPorEmpresaId env empresaId w =
          (Ok {| inicio_message := Some ("Bot iniciado para " +:+ nombre empresa);
                 inicio_error := None |}, w1)) as Heq.
  { unfold iniciarBotPorEmpresaId, obtenerEmpresas, try_catch, bind at 1, ret at 1.
    rewrite Hfind. unfold bind, iniciarBot. by rewrite Hrun. }
  unfold w'. rewrite Heq. simpl. rewrite Hb1, <-Hid, Hb.
  split_and!; [done..|]. by rewrite bool_decide_eq_false_2 by by intros [].
Qed.

Lemma start_reported_though_open_failed_witness :
  let w' := (iniciarBotPorEmpresaId entorno_caido "t1" mundo_t1).2 in
  (iniciarBotPorEmpresaId entorno_caido "t1" mundo_t1).1 =
    Ok {| inicio_message := Some ("Bot iniciado para " +:+ nombre empresa_t1);
          inicio_error := None |} ∧
  bots w' !! "t1" = None ∧
  activo (obtenerEstadoBot "t1" w') = false.
Proof.
  apply (start_reported_though_open_failed entorno_caido "t1" empresa_t1 mundo_t1);
    reflexivity.
Defined.

Section Arranque.
Context (env : Env).

(** [iniciarBot] never drops a handle, of any tenant. *)
Lemma iniciarBot_conserva_handles empresa w k :
  is_Some (bots w !! k) → is_Some (bots (iniciarBot env empresa w).2 !! k).
Proof.
  apply (iniciarBot_inv env empresa (λ w', is_Some (bots w' !! k))); try done.
  intros s w' Hk. simpl. destruct (decide (id empresa = k)) as [<-|Hne].
  - rewrite lookup_insert_eq. eauto.
  - by rewrite lookup_insert_ne.
Qed.

Lemma iniciarBot_deja_handle empresa w :
  (∀ t, provider_ok env t = true) →
  is_Some (bots (iniciarBot env empresa w).2 !! id empresa).
Proof.
  intros Hok. destruct (bots w !! id empresa) as [s|] eqn:Hb.
  - apply iniciarBot_conserva_handles. eauto.
  - destruct (iniciarBot_fuel_exito env empresa 5 w Hok Hb)
      as (w' & extra & Hrun & Hh & _).
    unfold iniciarBot. by rewrite Hrun.
Qed.

(** With its directory there and a provider that opens, a start either
    finds the handle and does nothing, or opens the provider and registers
    the socket. *)
Lemma iniciarBot_con_directorio empresa w :
  (∀ t, provider_ok env t = true) →
  is_Some (listado w (id empresa)) →
  iniciarBot env empresa w = (Ok tt, w) ∨
  iniciarBot env empresa w =
    (Ok tt, with_bots <[id empresa := tick w]>
              (emit (ProviderOpen (id empresa)) w)).
Proof.
  intros Hok Hl. destruct (bots w !! id empresa) as [s|] eqn:Hb.
  - left. unfold iniciarBot. simpl. desplegar.
    rewrite Hb. by rewrite bool_decide_eq_true_2 by eauto.
  - right. by apply iniciarBot_fuel_con_directorio.
Qed.

Lemma forEach_iniciarBot empresas :
  ∀ w,
    (∀ t, provider_ok env t = true) →
    (∀ e, e ∈ empresas → is_Some (listado w (id e))) →
    let w' := (forEach (iniciarBot env) empresas w).2 in
    (forEach (iniciarBot env) empresas w).1 = Ok tt ∧
    (∀ k, is_Some (bots w !! k) → is_Some (bots w' !! k)) ∧
    (∀ e, e ∈ empresas → is_Some (bots w' !! id e)) ∧
    sessions w' = sessions w ∧
    ∃ extra, trace w' = trace w ++ extra ∧ ∀ d, Mkdir d ∉ extra.
Proof.
  induction empresas as [|e empresas IH]; intros w Hok Hdirs.
  { cbv zeta. split_and!; [done..| |done|].
    - by intros e ?%not_elem_of_nil.
    - exists []. rewrite app_nil_r. split; [done|]. intros d. apply not_elem_of_nil. }
  cbv zeta. simpl. unfold bind.
  pose proof (iniciarBot_deja_handle e w Hok) as Hh.
  pose proof (iniciarBot_conserva_handles e w) as Hk.
  assert (∃ w1 extra1,
            iniciarBot env e w = (Ok tt, w1) ∧ sessions w1 = sessions w ∧
            trace w1 = trace w ++ extra1 ∧ ∀ d, Mkdir d ∉ extra1)
    as (w1 & extra1 & Hrun & Hs1 & Ht1 & Hm1).
  { destruct (iniciarBot_con_directorio e w Hok) as [Hrun|Hrun].
    - apply Hdirs. by left.
    - exists w, []. rewrite app_nil_r. split_and!; [done..|].
      intros d. apply not_elem_of_nil.
    - eexists _, [ProviderOpen (id e)]. split_and!; [done..|].
      intros d [=]%list_elem_of_singleton. }
  rewrite Hrun in Hh, Hk |- *. simpl in *.
  destruct (IH w1 Hok) as (IH1 & IH2 & IH3 & IH4 & extra & IH5 & IH6).
  { intros e' He'. unfold listado. rewrite Hs1. apply Hdirs. by right. }
  split_and!; [done|by auto| |by rewrite IH4|].
  - intros e' [->|He']%elem_of_cons; auto.
  - exists (extra1 ++ extra). rewrite IH5, Ht1, <-app_assoc. split; [done|].
    intros d [?|?]%elem_of_app; [by eapply Hm1|by eapply IH6].
Qed.
End Arranque.

Lemma unlinkSync_directorios env w0 dir archivo :
  conserva (λ w, (∀ d, is_Some (listado w d) ↔ is_Some (listado w0 d)) ∧
                 ∃ extra, trace w = trace w0 ++ extra ∧ ∀ d, Mkdir d ∉ extra)
    (unlinkSync env dir archivo).
Proof.
  intros w [Hd (extra & Ht & Hm)]. unfold unlinkSync.
  destruct (sessions w) as [ds|] eqn:Hs; [|eauto].
  destruct (ds !! dir) as [l|] eqn:Hl; [|eauto].
  destruct (_ && _); [|eauto]. simpl. split.
  - intros d. rewrite <-Hd. unfold listado. rewrite Hs. simpl.
    destruct (decide (d = dir)) as [->|Hne].
    + rewrite lookup_insert_eq, Hl. split; eauto.
    + by rewrite lookup_insert_ne.
  - exists (extra ++ [Unlink dir archivo]). rewrite Ht, <-app_assoc.
    split; [done|]. intros d [?|[=]%list_elem_of_singleton]%elem_of_app.
    by eapply Hm.
Qed.

(** X10. Start-up registers every tenant: when the session directory of
    every tenant of [empresasData] exists and the provider opens,
    [onModuleInit] returns normally and afterwards every tenant of
    [empresasData] has a handle in the registry (a tenant listed twice is
    started once); handles that existed before are still there; the
    directories are those there were, and no directory has been made. *)
Theorem startup_registers_every_tenant env w :
  (∀ t, provider_ok env t = true) →
  (∀ e, e ∈ empresasData env → is_Some (listado w (id e))) →
  let w' := (onModuleInit env w).2 in
  (onModuleInit env w).1 = Ok tt ∧
  (∀ e, e ∈ empresasData env → is_Some (bots w' !! id e)) ∧
  (∀ k, is_Some (bots w !! k) → is_Some (bots w' !! k)) ∧
  (∀ d, is_Some (listado w' d) ↔ is_Some (listado w d)) ∧
  (∀ d, Mkdir d ∉ efectos (onModuleInit env) w).
Proof.
  intros Hok Hdirs w'.
  pose proof (limpiarSesionesAntiguas_ok env w) as Hr.
  pose proof (pruning_bots env w) as Hb.
  assert ((∀ d, is_Some (listado (limpiarSesionesAntiguas env w).2 d) ↔
                is_Some (listado w d)) ∧
          ∃ extra, trace (limpiarSesionesAntiguas env w).2 = trace w ++ extra ∧
                   ∀ d, Mkdir d ∉ extra) as [Hd (extra1 & Ht1 & Hm1)].
  { apply (limpiarSesionesAntiguas_inv env
             (λ w1, (∀ d, is_Some (listado w1 d) ↔ is_Some (listado w d)) ∧
                    ∃ extra, trace w1 = trace w ++ extra ∧ ∀ d, Mkdir d ∉ extra)).
    - intros e a _ _. apply unlinkSync_directorios.
    - split; [done|]. exists []. rewrite app_nil_r. split; [done|].
      intros d. apply not_elem_of_nil. }
  destruct (limpiarSesionesAntiguas env w) as [o w1] eqn:Hl.
  simpl in Hr, Hb, Hd, Ht1. subst o.
  destruct (forEach_iniciarBot env (empresasData env) w1 Hok)
    as (H1 & H2 & H3 & H4 & extra2 & Ht2 & Hm2).
  { intros e He. apply Hd. by apply Hdirs. }
  assert (onModuleInit env w =
          (Ok tt, (forEach (iniciarBot env) (empresasData env) w1).2)) as Heq.
  { unfold onModuleInit, obtenerEmpresas, try_catch, bind, ret. rewrite Hl.
    destruct (empresasData env) as [|e empresas]; [done|].
    destruct (forEach (iniciarBot env) (e :: empresas) w1) as [o w2].
    simpl in H1. by subst o. }
  rewrite (efectos_app _ _ (extra1 ++ extra2)).
  2:{ rewrite Heq. simpl. by rewrite Ht2, Ht1, <-app_assoc. }
  unfold w'. rewrite Heq. simpl. split_and!; [done|done| | |].
  - intros k Hk. apply H2. by rewrite Hb.
  - intros d. unfold listado. rewrite H4. apply Hd.
  - intros d [?|?]%elem_of_app; [by eapply Hm1|by eapply Hm2].
Qed.

Lemma startup_registers_every_tenant_witness :
  let w' := (onModuleInit entorno_dos mundo_dos).2 in
  (onModuleInit entorno_dos mundo_dos).1 = Ok tt ∧
  (∀ e, e ∈ empresasData entorno_dos → is_Some (bots w' !! id e)) ∧
  (∀ k, is_Some (bots mundo_dos !! k) → is_Some (bots w' !! k)) ∧
  (∀ d, is_Some (listado w' d) ↔ is_Some (listado mundo_dos d)) ∧
  (∀ d, Mkdir d ∉ efectos (onModuleInit entorno_dos) mundo_dos).
Proof.
  apply (startup_registers_every_tenant entorno_dos mundo_dos).
  - reflexivity.
  - intros e [->|[->|[]%not_elem_of_nil]%elem_of_cons]%elem_of_cons;
      vm_compute; eauto.
Defined.

(** X11. Abandonment is not final: the close that exhausts the attempts
    (the counter already at 5 or more) leaves the tenant reported as
    inactive with 0 reconnect attempts, and because the counter is gone, a
    further close that is not a logout is handled as attempt 1 again: it
    waits 2000 ms and reconnects. *)
Theorem exhausted_tenant_starts_over env empresa u u' w :
  cierre_transitorio u →
  cierre_transitorio u' →
  MAX_RECONNECT_ATTEMPTS ≤ intentos w (id empresa) →
  let w6 := (connection_update env empresa u w).2 in
  obtenerEstadoBot (id empresa) w6 =
    {| estado_empresaId := id empresa; activo := false;
       intentosReconexion := 0 |} ∧
  head (esperas (efectos (connection_update env empresa u') w6)) = Some 2000.
Proof.
  intros (Hc & Hs & Hq) (Hc' & Hs' & Hq') Hge w6.
  assert (w6 = with_attempts (delete (id empresa))
                 (with_bots (delete (id empresa)) w)) as Hw6.
  { unfold w6. rewrite cierre_agotado; [done..|].
    unfold MAX_RECONNECT_ATTEMPTS in *. lia. }
  assert (intentos w6 (id empresa) = 0) as H0.
  { rewrite Hw6. unfold intentos. simpl. by rewrite lookup_delete_eq. }
  split.
  - unfold obtenerEstadoBot. rewrite H0. f_equal.
    rewrite Hw6. simpl. rewrite lookup_delete_eq.
    by rewrite bool_decide_eq_false_2 by by intros [].
  - assert (tras_qr empresa u' w6 = w6) as Hqr by (unfold tras_qr; by rewrite Hq').
    rewrite cierre_espera; rewrite ?Hqr, ?H0; done.
Qed.

Lemma exhausted_tenant_starts_over_witness :
  let w5 := procesar entorno_t1 empresa_t1 (replicate 5 cierre_428)
              mundo_conectado in
  let w6 := (connection_update entorno_t1 empresa_t1 cierre_428 w5).2 in
  obtenerEstadoBot (id empresa_t1) w6 =
    {| estado_empresaId := id empresa_t1; activo := false;
       intentosReconexion := 0 |} ∧
  head (esperas (efectos (connection_update entorno_t1 empresa_t1 cierre_428) w6)) =
    Some 2000.
Proof.
  apply (exhausted_tenant_starts_over entorno_t1 empresa_t1 cierre_428 cierre_428
           (procesar entorno_t1 empresa_t1 (replicate 5 cierre_428)
              mundo_conectado)).
  - repeat constructor; done.
  - repeat constructor; done.
  - vm_compute. discriminate.
Defined.

(** X12. A pairing code resets the count: an update that carries a QR
    code sets the counter of the tenant to 0 before anything else, so a
    close that comes with one and is not a logout is always handled as
    attempt 1, whatever the counter held: the code is printed, then the
    handler waits 2000 ms and reconnects; such a close never abandons the
    tenant. *)
Theorem close_with_pairing_code_is_attempt_one env empresa u w :
  truthy (qr u) = true →
  connection u = Some close →
  statusCode u ≠ Some DisconnectReason_loggedOut →
  head (efectos (connection_update env empresa u) w) =
    Some (QrGenerate (default "" (qr u))) ∧
  head (esperas (efectos (connection_update env empresa u) w)) = Some 2000.
Proof.
  intros Hq Hc Hs.
  assert (intentos (tras_qr empresa u w) (id empresa) = 0) as H0.
  { unfold tras_qr. rewrite Hq. unfold intentos. simpl.
    by rewrite lookup_insert_eq. }
  split; [|rewrite cierre_espera; rewrite ?H0; done].
  destruct (reintento_crece env empresa (backoff 1)
              (with_attempts <[id empresa := 1]> (tras_qr empresa u w)))
    as [resto Hresto].
  rewrite (efectos_app _ _
             (QrGenerate (default "" (qr u)) :: Esperar (backoff 1) :: resto));
    [done|].
  rewrite connection_update_close by done. simpl. rewrite H0.
  rewrite bool_decide_eq_false_2 by done. simpl.
  etrans; [apply Hresto|]. simpl. rewrite trace_tras_qr, Hq.
  by rewrite <-app_assoc.
Qed.

Lemma close_with_pairing_code_is_attempt_one_witness :
  let u := {| connection := Some close; statusCode := Some 428;
              qr := Some "2@abc" |} in
  head (efectos (connection_update entorno_t1 empresa_t1 u) mundo_reintentando) =
    Some (QrGenerate (default "" (qr u))) ∧
  head (esperas (efectos (connection_update entorno_t1 empresa_t1 u)
                   mundo_reintentando)) = Some 2000.
Proof.
  apply (close_with_pairing_code_is_attempt_one entorno_t1 empresa_t1
           {| connection := Some close; statusCode := Some 428;
              qr := Some "2@abc" |} mundo_reintentando);
    [reflexivity|reflexivity|discriminate].
Defined.

(** ** More on sending and dispatching *)

Lemma enviarMensajePorEmpresaId_caso env empresaId to text w :
  enviarMensajePorEmpresaId env empresaId to text w =
    match bots w !! empresaId with
    | Some sock =>
        (Ok {| success := true;
               message := Some "Mensaje enviado correctamente";
               error := None |},
         emit (SendMessage sock to text) w)
    | None =>
        (Ok {| success := false;
               message := None;
               error := Some "Error al enviar el mensaje" |}, w)
    end.
Proof.
  unfold enviarMensajePorEmpresaId, try_catch, bind, gets.
  destruct (bots w !! empresaId) as [sock|]; [|done].
  by rewrite enviarMensaje_traga.
Qed.

Lemma enviarRespuestaDesdeN8N_caso env empresaId telefono respuesta w :
  enviarRespuestaDesdeN8N env empresaId telefono respuesta w =
    match bots w !! empresaId with
    | Some sock =>
        (Ok {| success := true;
               message := Some "Respuesta enviada correctamente desde N8N";
               error := None |},
         emit (SendMessage sock telefono respuesta) w)
    | None =>
        (Ok {| success := false;
               message := Some ("Bot no encontrado para empresa " +:+ empresaId);
               error := None |}, w)
    end.
Proof.
  unfold enviarRespuestaDesdeN8N, try_catch, bind, gets.
  destruct (bots w !! empresaId) as [sock|]; [|done].
  by rewrite enviarMensaje_traga.
Qed.

(** X13. What [enviarMensajePorEmpresaId] answers depends on the registry
    alone: without a handle for the tenant it answers [success = false]
    with the error [Error al enviar el mensaje] and does nothing; with a
    handle it performs one send through that handle and answers
    [success = true], whether the send worked or not. It never throws and
    changes nothing but the trace. *)
Theorem send_by_tenant_id env empresaId to text w :
  enviarMensajePorEmpresaId env empresaId to text w =
    match bots w !! empresaId with
    | Some sock =>
        (Ok {| success := true;
               message := Some "Mensaje enviado correctamente";
               error := None |},
         emit (SendMessage sock to text) w)
    | None =>
        (Ok {| success := false;
               message := None;
               error := Some "Error al enviar el mensaje" |}, w)
    end.
Proof.
  unfold enviarMensajePorEmpresaId, try_catch, bind, gets.
  destruct (bots w !! empresaId) as [sock|]; [|done].
  by rewrite enviarMensaje_traga.
Qed.

(** X14. [enviarRespuestaDesdeN8N] likewise: without a handle it answers
    [success = false] with the message [Bot no encontrado para empresa
    <id>] and does nothing; with a handle it performs one send through it
    and answers [success = true] whatever the send did. *)
Theorem reply_from_webhook env empresaId telefono respuesta w :
  enviarRespuestaDesdeN8N env empresaId telefono respuesta w =
    match bots w !! empresaId with
    | Some sock =>
        (Ok {| success := true;
               message := Some "Respuesta enviada correctamente desde N8N";
               error := None |},
         emit (SendMessage sock telefono respuesta) w)
    | None =>
        (Ok {| success := false;
               message := Some ("Bot no encontrado para empresa " +:+ empresaId);
               error := None |}, w)
    end.
Proof.
  unfold enviarRespuestaDesdeN8N, try_catch, bind, gets.
  destruct (bots w !! empresaId) as [sock|]; [|done].
  by rewrite enviarMensaje_traga.
Qed.

(** X15. The local fallback answers commands only: [procesarMensajeLocal]
    does nothing when the tenant has no handle or when the text does not
    begin with [!]; otherwise it sends exactly one message, through the
    handle of the tenant, to the sender of the text, and that message is
    the help text, the information text or the unknown-command text. It
    returns normally in every case. *)
Theorem local_fallback_replies_to_commands env empresaId data w :
  (procesarMensajeLocal env empresaId data w).1 = Ok tt ∧
  match bots w !! empresaId with
  | Some sock =>
      if startsWith "!" (mensaje data) then
        ∃ respuesta,
          (procesarMensajeLocal env empresaId data w).2 =
            emit (SendMessage sock (telefono data) respuesta) w ∧
          (respuesta = respuesta_ayuda ∨
           respuesta = respuesta_info
                         (find (λ e, bool_decide (id e = empresaId))
                            (empresasData env)) ∨
           respuesta = respuesta_desconocido)
      else (procesarMensajeLocal env empresaId data w).2 = w
  | None => (procesarMensajeLocal env empresaId data w).2 = w
  end.
Proof.
  unfold procesarMensajeLocal, bind, gets, ret.
  destruct (bots w !! empresaId) as [sock|]; [|done].
  destruct (startsWith "!" (mensaje data)); [|done].
  rewrite enviarMensaje_traga. split; [done|]. eexists. split; [done|].
  destruct (_ || _); [by left|]. destruct (bool_decide _); auto.
Qed.

(** X16. What the dispatcher skips: a first message that comes from the
    tenant itself or has no text is dropped without any effect; only the
    first message of an upsert is looked at, the rest of the batch is
    ignored; and an upsert without any message makes the handler throw a
    [TypeError] (nothing catches it). *)
Theorem dispatcher_skips env empresa m resto w :
  (fromMe m = true ∨ truthy (conversation m) = false →
   messages_upsert env empresa (m :: resto) w = (Ok tt, w)) ∧
  messages_upsert env empresa (m :: resto) w = messages_upsert env empresa [m] w ∧
  messages_upsert env empresa [] w = (Throw TypeError, w).
Proof.
  split_and!; [|done..]. unfold messages_upsert.
  intros [-> | ->]; [done|]. by rewrite andb_false_r.
Qed.

(** X17. No local reply when the webhook answers: for a dispatched message
    whose POST resolves (a 2xx status), the handler performs that POST and
    nothing else; the local interpreter is not run, even when the text is
    a command. *)
Theorem webhook_success_needs_no_fallback env empresa m resto w :
  fromMe m = false →
  truthy (conversation m) = true →
  post_resolves (post_outcome env (tick w)) = true →
  messages_upsert env empresa (m :: resto) w =
    (Ok tt, emit (AxiosPost (webhook_de env empresa) (datos_de env empresa m w)) w).
Proof.
  intros Hme Htxt Hpost. unfold messages_upsert. rewrite Hme, Htxt. simpl.
  unfold enviarMensajeAN8N, axios_post, try_catch, bind, gets. simpl.
  by rewrite Hpost.
Qed.

Lemma webhook_success_needs_no_fallback_witness :
  messages_upsert entorno_caido empresa_t1 [mensaje_ayuda] mundo_conectado =
    (Ok tt, emit (AxiosPost (webhook_de entorno_caido empresa_t1)
                    (datos_de entorno_caido empresa_t1 mensaje_ayuda mundo_conectado))
              mundo_conectado).
Proof.
  apply (webhook_success_needs_no_fallback entorno_caido empresa_t1 mensaje_ayuda []
           mundo_conectado); reflexivity.
Defined.

(** ** The controller *)

(** X18. [POST webhook/respuesta]: a body with a missing or empty field is
    refused with a 400 before the service is called; with a complete body
    and no handle for the tenant the endpoint throws a 500 whose message
    is [Bot no encontrado para empresa <id>] and nothing is sent; with a
    handle there is one send through it and the endpoint answers
    [Respuesta enviada correctamente], whatever the send did. *)
Theorem webhook_reply_endpoint env body w :
  BotsController.recibirRespuestaDeN8N env body w =
    if negb (truthy (BotsController.cr_empresaId body))
       || negb (truthy (BotsController.cr_telefono body))
       || negb (truthy (BotsController.cr_respuesta body))
    then (Ok (inl {| BotsController.reason :=
                       "Datos requeridos: empresaId, telefono, respuesta";
                     BotsController.status := BotsController.BAD_REQUEST |}), w)
    else
      let empresaId := default "" (BotsController.cr_empresaId body) in
      let telefono := default "" (BotsController.cr_telefono body) in
      match bots w !! empresaId with
      | Some sock =>
          (Ok (inr {| BotsController.en_message := "Respuesta enviada correctamente";
                      BotsController.en_empresaId := empresaId;
                      BotsController.en_telefono := telefono;
                      BotsController.en_mensaje := None |}),
           emit (SendMessage sock telefono
                   (default "" (BotsController.cr_respuesta body))) w)
      | None =>
          (Ok (inl {| BotsController.reason :=
                        "Bot no encontrado para empresa " +:+ empresaId;
                      BotsController.status :=
                        BotsController.INTERNAL_SERVER_ERROR |}), w)
      end.
Proof.
  unfold BotsController.recibirRespuestaDeN8N.
  destruct (_ || _); [done|].
  unfold try_catch, bind at 1. rewrite enviarRespuestaDesdeN8N_caso.
  by destruct (bots w !! _).
Qed.

(** X19. [POST :empresaId/send]: a body without telephone or message is
    refused with a 400 before the service is called; for a tenant without
    handle the endpoint throws a 500 with the message [Error al enviar el
    mensaje] and nothing is sent; with a handle there is one send and the
    endpoint answers [Mensaje enviado correctamente], whatever the send
    did. *)
Theorem send_endpoint env empresaId body w :
  BotsController.enviarMensaje env empresaId body w =
    if negb (truthy (BotsController.ce_telefono body))
       || negb (truthy (BotsController.ce_mensaje body))
    then (Ok (inl {| BotsController.reason := "Datos requeridos: telefono, mensaje";
                     BotsController.status := BotsController.BAD_REQUEST |}), w)
    else
      let telefono := default "" (BotsController.ce_telefono body) in
      let mensaje := default "" (BotsController.ce_mensaje body) in
      match bots w !! empresaId with
      | Some sock =>
          (Ok (inr {| BotsController.en_message := "Mensaje enviado correctamente";
                      BotsController.en_empresaId := empresaId;
                      BotsController.en_telefono := telefono;
                      BotsController.en_mensaje := Some mensaje |}),
           emit (SendMessage sock telefono mensaje) w)
      | None =>
          (Ok (inl {| BotsController.reason := "Error al enviar el mensaje";
                      BotsController.status :=
                        BotsController.INTERNAL_SERVER_ERROR |}), w)
      end.
Proof.
  unfold BotsController.enviarMensaje.
  destruct (_ || _); [done|].
  unfold try_catch, bind at 1. rewrite enviarMensajePorEmpresaId_caso.
  by destruct (bots w !! _).
Qed.

(** X20. The summary of [GET status/all] adds up: it has one status per
    listed tenant, in the order of the list; [activos] counts the listed
    tenants that have a handle, [inactivos] those that have none, and
    together they make [total]. *)
Theorem status_summary_adds_up env w :
  let r := BotsController.obtenerEstadoTodosBots env w in
  BotsController.total r = length (empresasData env) ∧
  estado_empresaId <$> BotsController.data r = id <$> empresasData env ∧
  BotsController.activos r =
    length (filter (λ e, is_Some (bots w !! id e)) (empresasData env)) ∧
  BotsController.inactivos r =
    length (filter (λ e, bots w !! id e = None) (empresasData env)) ∧
  (BotsController.activos r + BotsController.inactivos r)%nat =
    BotsController.total r.
Proof.
  unfold BotsController.obtenerEstadoTodosBots. simpl.
  induction (empresasData env) as [|e l (IH1 & IH2 & IH3 & IH4 & IH5)]; [done|].
  rewrite !fmap_cons, !filter_cons. simpl.
  rewrite length_fmap in *.
  destruct (bots w !! id e) as [s|] eqn:Hb;
    [rewrite bool_decide_eq_true_2 by eauto
    |rewrite bool_decide_eq_false_2 by by intros []];
    simpl; repeat case_decide;
    try (exfalso; by eauto using mk_is_Some, is_Some_None);
    simpl; split_and!; try done; try (by f_equal); lia.
Qed.

(** ** The handler of the earlier revision *)

(** X21. The command handler of [bots.service.ts] answers every command
    exactly once: for a first message that is not from the tenant itself
    and whose text begins with [/], it sends exactly one message, through
    the socket of the session, to the sender, and returns normally
    whatever the order service and the socket do; every other message is
    dropped without effect. For the [estado] command the order asked for is
    the second space-separated word of the command ([undefined] when there
    is none), and the reply is the state found or, when the request fails,
    the text [No encontré el pedido] with that word. *)
Theorem old_handler_replies_once env pedidos empresa sock m resto w :
  let r := Rev1.messages_upsert env pedidos empresa sock (m :: resto) w in
  let comando := trim (slice_1 (default "" (conversation m))) in
  let pedidoId := Rev1.plantilla (Rev1.split_espacio_1 comando) in
  r.1 = Ok tt ∧
  if negb (fromMe m) && truthy (conversation m)
     && startsWith "/" (default "" (conversation m))
  then
    ∃ text,
      r.2 = emit (SendMessage sock (remoteJid m) text) w ∧
      (startsWith "estado" comando = true →
       text =
         match pedidos (tick w)
                 ("http://localhost:3000/empresas/" +:+ id empresa +:+
                  "/pedidos/" +:+ pedidoId) with
         | Some estado =>
             "📦 Estado del pedido " +:+ pedidoId +:+ ": "
             +:+ Rev1.plantilla estado
         | None => "❌ No encontré el pedido " +:+ pedidoId
         end)
  else r.2 = w.
Proof.
  intros r comando pedidoId. unfold r, Rev1.messages_upsert.
  destruct (negb (fromMe m) && truthy (conversation m)
            && startsWith "/" (default "" (conversation m))); [|done].
  fold comando. fold pedidoId.
  destruct (startsWith "estado" comando).
  - unfold try_catch, bind, Rev1.axios_get.
    destruct (pedidos (tick w) _) as [estado|];
      rewrite enviarMensaje_traga; split; eauto.
  - destruct (_ || _); [|destruct (bool_decide _)];
      rewrite enviarMensaje_traga; split; try done;
      eexists; (split; [done|]); done.
Qed.

(** ** A reconnect against a provider that is down *)

(** X22. The two retry paths share one counter: when a tenant with a live
    handle and the counter at [c < 5] gets a close that is not a logout
    while the provider does not open any more, the handler waits the
    backoff delay of attempt [c + 1], ends the old socket and removes its
    handle, and then [iniciarBot] retries with its fixed wait of 5000 ms
    only [5 - (c + 1)] more times; in the end the tenant has no handle, the
    counter holds 5, and the handler has returned normally. *)
Theorem reconnect_with_provider_down env empresa u w s :
  (∀ t, provider_ok env t = false) →
  cierre_transitorio u →
  bots w !! id empresa = Some s →
  intentos w (id empresa) < MAX_RECONNECT_ATTEMPTS →
  let c := intentos w (id empresa) in
  let w' := (connection_update env empresa u w).2 in
  (connection_update env empresa u w).1 = Ok tt ∧
  bots w' !! id empresa = None ∧
  connectionAttempts w' !! id empresa = Some 5 ∧
  SockEnd s ∈ efectos (connection_update env empresa u) w ∧
  esperas (efectos (connection_update env empresa u) w) =
    backoff (c + 1) :: replicate (N.to_nat (5 - (c + 1))) 5000.
Proof.
  intros Hno Hu Hb Hlt c w'. unfold MAX_RECONNECT_ATTEMPTS in Hlt.
  pose proof (cierre_reintenta env empresa u w Hu) as Heq.
  fold c in Heq.
  set (w1 := with_attempts <[id empresa := c + 1]> w) in *.
  set (w2 := with_bots (delete (id empresa))
               (emit (SockEnd s) (emit (Esperar (backoff (c + 1))) w1))).
  assert (intentos w2 (id empresa) = c + 1) as Hi2.
  { unfold intentos, w2, w1. simpl. by rewrite lookup_insert_eq. }
  destruct (iniciarBot_fuel_falla env empresa Hno 6 w2)
    as (w3 & extra & Hrun & Hb3 & Ht & He & Ha & Hc).
  { unfold w2. simpl. apply lookup_delete_eq. }
  { rewrite Hi2. lia. }
  rewrite Hi2 in He, Hc.
  assert (connection_update env empresa u w = (Ok tt, w3)) as Hres.
  { rewrite Heq by (unfold MAX_RECONNECT_ATTEMPTS; lia).
    unfold try_catch, bind at 1, esperar, modify.
    unfold reconectar, sock_end, when, bind at 1, gets at 1.
    assert (bots (emit (Esperar (backoff (c + 1))) w1) !! id empresa = Some s)
      as Hb1 by done.
    rewrite Hb1, bool_decide_eq_true_2 by eauto.
    unfold bind at 1. unfold bind at 1, gets at 1. rewrite Hb1.
    unfold bind at 1, modify. fold w2. unfold iniciarBot. by rewrite Hrun. }
  assert (efectos (connection_update env empresa u) w =
          Esperar (backoff (c + 1)) :: SockEnd s :: extra) as Hef.
  { apply efectos_app. rewrite Hres. simpl. rewrite Ht. unfold w2, w1. simpl.
    by rewrite <-!app_assoc. }
  unfold w'. rewrite Hef, Hres. cbn [fst snd]. split_and!.
  - done.
  - rewrite Hb3. unfold w2. simpl. apply lookup_delete_eq.
  - rewrite Hc. unfold w2, w1. simpl.
    destruct (N.ltb_spec (c + 1) 5); rewrite lookup_insert_eq; [done|].
    f_equal. lia.
  - right. by left.
  - rewrite esperas_espera. f_equal. exact He.
Qed.

Lemma reconnect_with_provider_down_witness :
  let c := intentos mundo_conectado (id empresa_t1) in
  let w' := (connection_update entorno_caido empresa_t1 cierre_428
               mundo_conectado).2 in
  (connection_update entorno_caido empresa_t1 cierre_428 mundo_conectado).1 = Ok tt ∧
  bots w' !! id empresa_t1 = None ∧
  connectionAttempts w' !! id empresa_t1 = Some 5 ∧
  SockEnd 0%nat ∈ efectos (connection_update entorno_caido empresa_t1 cierre_428)
                    mundo_conectado ∧
  esperas (efectos (connection_update entorno_caido empresa_t1 cierre_428)
             mundo_conectado) =
    backoff (c + 1) :: replicate (N.to_nat (5 - (c + 1))) 5000.
Proof.
  apply (reconnect_with_provider_down entorno_caido empresa_t1 cierre_428
           mundo_conectado 0%nat).
  - reflexivity.
  - repeat constructor; done.
  - reflexivity.
  - reflexivity.
Defined.

(** X23. A file system that refuses to unlink: when every unlink throws,
    [limpiarSesionesAntiguas] still returns normally, and it leaves the
    whole state as it was; the failure is only logged. *)
Theorem pruning_fails_silently env w :
  (∀ dir archivo, unlink_ok env dir archivo = false) →
  limpiarSesionesAntiguas env w = (Ok tt, w).
Proof.
  intros Hno.
  pose proof (limpiarSesionesAntiguas_ok env w) as Hr.
  assert ((limpiarSesionesAntiguas env w).2 = w) as Hw.
  { apply (limpiarSesionesAntiguas_inv env (λ w', w' = w)); [|done].
    intros e a _ _ w' ->. unfold unlinkSync.
    destruct (sessions w) as [ds|]; [|done].
    destruct (ds !! id e); [|done]. by rewrite Hno, andb_false_r. }
  destruct (limpiarSesionesAntiguas env w) as [o w1]. simpl in *. by subst.
Qed.

Lemma pruning_fails_silently_witness :
  limpiarSesionesAntiguas entorno_solo_lectura mundo_t1 = (Ok tt, mundo_t1).
Proof.
  apply (pruning_fails_silently entorno_solo_lectura mundo_t1). reflexivity.
Defined.
